(** * Extension placement policy and sandbox preload bridge

    A shallow embedding of two pieces of the workbench:

    - [ExtensionService.pickRunningLocation], the static placement policy of
      the browser extension service
      (vs/workbench/services/extensions/browser/extensionService.ts), and
      [filterByRunningLocation], by which the service decides what it
      registers;
    - the allow-list bridge of the sandbox preload script
      (vs/base/parts/sandbox/electron-browser/preload.js): [validateIPC],
      [validateProcessEventType], [resolveEnv] and the exposed
      [ipcRenderer] and [process] methods, together with [parseArgv] and
      the start of [resolveConfiguration] and [resolveShellEnv].

    Statements about the policy are pure; the preload script mutates
    [process.env], a module-level variable and talks to Electron, which is
    modelled by an explicit world threaded through a state-and-exception
    monad. *)

From stdpp Require Import gmap strings list fin_maps.

Open Scope string_scope.

(* ===================================================================== *)
(** * Enumerations used by the placement policy *)
(* ===================================================================== *)

(** Modelled from the spec: the enum [ExtensionRunningLocation] is imported
    from vs/workbench/services/extensions/common/extensions, which is not
    part of the sources at hand.  The policy names three of its values; the
    spec lists the outcomes as [LocalWebWorker], [Remote] or [None]. *)
Module ExtensionRunningLocation.
Inductive t : Set :=
  | None
  | LocalWebWorker
  | Remote.

#[global] Instance eq_dec : EqDecision t.
Proof. solve_decision. Defined.
End ExtensionRunningLocation.

(** Modelled from the spec: the enum [ExtensionRunningPreference] is imported
    from abstractExtensionService; the spec lists the preferences as
    [None], [Local] and [Remote]. *)
Module ExtensionRunningPreference.
Inductive t : Set :=
  | None
  | Local
  | Remote.

#[global] Instance eq_dec : EqDecision t.
Proof. solve_decision. Defined.
End ExtensionRunningPreference.

(** Modelled from the spec: [ExtensionKind] is imported from
    vs/platform/extensions/common/extensions; its values are the string
    tags ['ui'], ['workspace'] and ['web'].  The policy compares kinds with
    [===] against string literals, so a kind is kept as the string it is. *)
Definition ExtensionKind : Set := string.

(* ===================================================================== *)
(** * The placement policy *)
(* ===================================================================== *)

Module ExtensionService.

(** The two locals of [pickRunningLocation] that the loop mutates. *)
Record Locals : Set := mkLocals {
  result : list ExtensionRunningLocation.t;
  canRunRemotely : bool
}.

(** Control flow of a statement inside the [for] loop: either the function
    has returned, or execution goes on with the (possibly updated) locals. *)
Inductive Flow : Set :=
  | Return (r : ExtensionRunningLocation.t)
  | Continue (st : Locals).

Definition andThen (f : Flow) (k : Locals -> Flow) : Flow :=
  match f with
  | Return r => Return r
  | Continue st => k st
  end.

Notation "'let*' st := f 'in' k" := (andThen f (fun st => k))
  (at level 10, st name, f at level 100, k at level 200, only parsing).

(** [result.push(x)] *)
Definition push (x : ExtensionRunningLocation.t) (st : Locals) : Locals :=
  mkLocals (result st ++ [x]) (canRunRemotely st).

Section Policy.

Variables isInstalledLocally isInstalledRemotely : bool.
Variable preference : ExtensionRunningPreference.t.

(** [if (extensionKind === 'ui' && isInstalledRemotely) { ... }] *)
Definition ifUi (extensionKind : ExtensionKind) (st : Locals) : Flow :=
  if bool_decide (extensionKind = "ui") && isInstalledRemotely then
    if bool_decide (preference = ExtensionRunningPreference.Remote) then
      Return ExtensionRunningLocation.Remote
    else
      Continue (mkLocals (result st) true)
  else Continue st.

(** [if (extensionKind === 'workspace' && isInstalledRemotely) { ... }] *)
Definition ifWorkspace (extensionKind : ExtensionKind) (st : Locals) : Flow :=
  if bool_decide (extensionKind = "workspace") && isInstalledRemotely then
    if bool_decide (preference = ExtensionRunningPreference.None)
       || bool_decide (preference = ExtensionRunningPreference.Remote) then
      Return ExtensionRunningLocation.Remote
    else
      Continue (push ExtensionRunningLocation.Remote st)
  else Continue st.

(** [if (extensionKind === 'web' && isInstalledLocally) { ... }] *)
Definition ifWeb (extensionKind : ExtensionKind) (st : Locals) : Flow :=
  if bool_decide (extensionKind = "web") && isInstalledLocally then
    if bool_decide (preference = ExtensionRunningPreference.None)
       || bool_decide (preference = ExtensionRunningPreference.Local) then
      Return ExtensionRunningLocation.LocalWebWorker
    else
      Continue (push ExtensionRunningLocation.LocalWebWorker st)
  else Continue st.

(** One iteration of the loop: the three [if] statements in sequence. *)
Definition loopBody (extensionKind : ExtensionKind) (st : Locals) : Flow :=
  let* st1 := ifUi extensionKind st in
  let* st2 := ifWorkspace extensionKind st1 in
  ifWeb extensionKind st2.

(** [for (const extensionKind of extensionKinds) { ... }] *)
Fixpoint forOf (extensionKinds : list ExtensionKind) (st : Locals) : Flow :=
  match extensionKinds with
  | [] => Continue st
  | extensionKind :: rest =>
      let* st' := loopBody extensionKind st in forOf rest st'
  end.

(** The statements after the loop. *)
Definition afterLoop (st : Locals) : ExtensionRunningLocation.t :=
  let st := if canRunRemotely st
            then push ExtensionRunningLocation.Remote st else st in
  match result st with
  | r0 :: _ => r0
  | [] => ExtensionRunningLocation.None
  end.

End Policy.

Definition pickRunningLocation (extensionKinds : list ExtensionKind)
    (isInstalledLocally isInstalledRemotely : bool)
    (preference : ExtensionRunningPreference.t) : ExtensionRunningLocation.t :=
  match forOf isInstalledLocally isInstalledRemotely preference
              extensionKinds (mkLocals [] false) with
  | Return r => r
  | Continue st => afterLoop st
  end.

End ExtensionService.


(* ===================================================================== *)
(** * The sandbox preload script *)
(* ===================================================================== *)

Module Preload.

(** An environment object, [{[key: string]: string}]. *)
Abbreviation Env := (gmap string string).

(** Promises are known by identity: the index of their creation. *)
Definition PromiseId : Set := nat.

Inductive PromiseState : Set :=
  | Pending
  | Fulfilled
  | Rejected (reason : string).

(** Values handed through the bridge untouched ([any]). *)
Inductive any : Type :=
  | Undefined
  | Str (s : string)
  | Num (n : Z)
  | Obj (fields : Env).

(** Functions handed to Electron or to [process] as listeners: a function
    of the caller, known by identity, or the closure that [resolveEnv]
    builds, which captures [userEnv] and the promise's [resolve]. *)
Inductive Listener : Type :=
  | Callback (identity : nat)
  | AcceptShellEnv (userEnv : Env) (resolve : PromiseId).

(** A call received by Electron's [ipcRenderer] (the transport). *)
Inductive IpcCall : Type :=
  | Send (channel : string) (args : list any)
  | PostMessage (channel : string) (message : any) (transfer : list any)
  | Invoke (channel : string) (args : list any)
  | On (channel : string) (listener : Listener)
  | Once (channel : string) (listener : Listener)
  | RemoveListener (channel : string) (listener : Listener).

(** Everything the script can read or change. *)
Record World : Type := mkWorld {
  process_env : Env;                          (* process.env *)
  resolvedEnv : option PromiseId;             (* let resolvedEnv = undefined *)
  promises : list PromiseState;               (* promise store, by identity *)
  ipcCalls : list IpcCall;                    (* transport calls, oldest first *)
  processListeners : list (string * Listener) (* process.on registrations *)
}.

(** ** Statements: state plus exceptions *)

Inductive Outcome (A : Type) : Type :=
  | Ok (a : A)
  | Throw (message : string).
Arguments Ok {A} a.
Arguments Throw {A} message.

(** A thrown error keeps the changes made before the [throw]. *)
Definition M (A : Type) : Type := World -> Outcome A * World.

#[global] Instance M_ret : MRet M := λ A a w, (Ok a, w).

#[global] Instance M_bind : MBind M := λ A B k m w,
  match m w with
  | (Ok a, w') => k a w'
  | (Throw e, w') => (Throw e, w')
  end.

Definition throw {A : Type} (message : string) : M A :=
  λ w, (Throw message, w).

Definition gets {A : Type} (f : World -> A) : M A := λ w, (Ok (f w), w).

Definition modify (f : World -> World) : M unit := λ w, (Ok tt, f w).

Definition set_process_env (e : Env) (w : World) : World :=
  mkWorld e (resolvedEnv w) (promises w) (ipcCalls w) (processListeners w).

Definition set_resolvedEnv (r : option PromiseId) (w : World) : World :=
  mkWorld (process_env w) r (promises w) (ipcCalls w) (processListeners w).

Definition set_promises (ps : list PromiseState) (w : World) : World :=
  mkWorld (process_env w) (resolvedEnv w) ps (ipcCalls w) (processListeners w).

Definition set_ipcCalls (cs : list IpcCall) (w : World) : World :=
  mkWorld (process_env w) (resolvedEnv w) (promises w) cs (processListeners w).

Definition set_processListeners (ls : list (string * Listener)) (w : World)
    : World :=
  mkWorld (process_env w) (resolvedEnv w) (promises w) (ipcCalls w) ls.

(** ** The host: Electron and the node [process] *)

(** [Object.assign(process.env, ...sources)]: later sources win. *)
Definition Object_assign_process_env (sources : list Env) : M unit :=
  modify (λ w, set_process_env
                 (foldl (λ target source, source ∪ target) (process_env w) sources)
                 w).

(** Settling a promise: only a pending promise changes state. *)
Definition settle (p : PromiseId) (s : PromiseState) (w : World) : World :=
  match promises w !! p with
  | Some Pending => set_promises (<[p := s]> (promises w)) w
  | _ => w
  end.

(** [new Promise(executor)]: the executor runs at once; an error it throws
    rejects the promise instead of propagating. *)
Definition newPromise (executor : PromiseId -> M unit) : M PromiseId :=
  λ w, let p := length (promises w) in
       match executor p (set_promises (promises w ++ [Pending]) w) with
       | (Ok _, w') => (Ok p, w')
       | (Throw e, w') => (Ok p, settle p (Rejected e) w')
       end.

Module electron.
Module ipcRenderer.

Definition record (c : IpcCall) : M unit :=
  modify (λ w, set_ipcCalls (ipcCalls w ++ [c]) w).

Definition send (channel : string) (args : list any) : M unit :=
  record (Send channel args).

Definition postMessage (channel : string) (message : any)
    (transfer : list any) : M unit :=
  record (PostMessage channel message transfer).

(** [invoke] answers with a promise of the main side's reply. *)
Definition invoke (channel : string) (args : list any) : M PromiseId :=
  record (Invoke channel args);;
  newPromise (λ _, mret tt).

Definition on (channel : string) (listener : Listener) : M unit :=
  record (On channel listener).

Definition once (channel : string) (listener : Listener) : M unit :=
  record (Once channel listener).

Definition removeListener (channel : string) (listener : Listener) : M unit :=
  record (RemoveListener channel listener).

End ipcRenderer.
End electron.

Module process.

(** The node [process.on]: registers the callback for the event. *)
Definition on (type : string) (callback : Listener) : M unit :=
  modify (λ w, set_processListeners (processListeners w ++ [(type, callback)]) w).

End process.

(** ** Utilities of the script *)

(** [!channel] for a string: only the empty string is falsy. *)
Definition falsy (s : string) : bool := bool_decide (s = "").

Definition validateIPC (channel : string) : M bool :=
  if falsy channel || negb (String.prefix "vscode:" channel) then
    throw ("Unsupported event IPC channel '" +:+ channel +:+ "'")
  else
    mret true.

Definition validateProcessEventType (type : string) : M bool :=
  if negb (bool_decide (type = "uncaughtException")) then
    throw ("Unsupported process event '" +:+ type +:+ "'")
  else
    mret true.

(** The listener registered by [resolveEnv], run when the main side
    answers on ['vscode:acceptShellEnv'] with [shellEnv]. *)
Definition acceptShellEnv (userEnv : Env) (resolve : PromiseId)
    (shellEnv : Env) : M unit :=
  Object_assign_process_env [shellEnv; userEnv];;
  modify (settle resolve Fulfilled).

Definition resolveEnv (userEnv : Env) : M (option PromiseId) :=
  cached ← gets resolvedEnv;
  (if cached is None then
     (* Apply `userEnv` directly *)
     Object_assign_process_env [userEnv];;
     (* Resolve `shellEnv` from the main side *)
     p ← newPromise (λ resolve,
           electron.ipcRenderer.once "vscode:acceptShellEnv"
             (AcceptShellEnv userEnv resolve);;
           electron.ipcRenderer.send "vscode:fetchShellEnv" []);
     modify (set_resolvedEnv (Some p))
   else mret tt);;
  gets resolvedEnv.

(** ** The exposed surface *)

Module globals.

Module ipcRenderer.

Definition send (channel : string) (args : list any) : M unit :=
  ok ← validateIPC channel;
  if (ok : bool) then electron.ipcRenderer.send channel args else mret tt.

Definition postMessage (channel : string) (message : any)
    (transfer : list any) : M unit :=
  ok ← validateIPC channel;
  if (ok : bool) then electron.ipcRenderer.postMessage channel message transfer
  else mret tt.

Definition invoke (channel : string) (args : list any)
    : M (option PromiseId) :=
  ok ← validateIPC channel;
  if (ok : bool) then p ← electron.ipcRenderer.invoke channel args; mret (Some p)
  else mret None.

Definition on (channel : string) (listener : Listener) : M unit :=
  ok ← validateIPC channel;
  if (ok : bool) then electron.ipcRenderer.on channel listener else mret tt.

Definition once (channel : string) (listener : Listener) : M unit :=
  ok ← validateIPC channel;
  if (ok : bool) then electron.ipcRenderer.once channel listener else mret tt.

Definition removeListener (channel : string) (listener : Listener)
    : M unit :=
  ok ← validateIPC channel;
  if (ok : bool) then electron.ipcRenderer.removeListener channel listener
  else mret tt.

End ipcRenderer.

Module process.

Definition resolveEnv (userEnv : Env) : M (option PromiseId) :=
  Preload.resolveEnv userEnv.

Definition on (type : string) (callback : Listener) : M unit :=
  ok ← validateProcessEventType type;
  if (ok : bool) then Preload.process.on type callback else mret tt.

End process.

End globals.

(** A sequence of calls of one method, with their results in order. *)
Fixpoint calls {A B : Type} (f : A -> M B) (xs : list A) : M (list B) :=
  match xs with
  | [] => mret (M := M) []
  | x :: rest => r ← f x; rs ← calls f rest; mret (r :: rs)
  end.

(** How many times the transport was asked to send on [channel]. *)
Definition isSendOn (channel : string) (c : IpcCall) : bool :=
  if c is Send ch _ then bool_decide (ch = channel) else false.

Definition sentOn (channel : string) (w : World) : nat :=
  length (List.filter (isSendOn channel) (ipcCalls w)).

(** The world when the script starts: nothing resolved, no traffic yet. *)
Definition startWorld (env : Env) : World := mkWorld env None [] [] [].

End Preload.


(* ===================================================================== *)
(** * The placement policy as the specification words it *)
(* ===================================================================== *)

(** These definitions follow the prose description of the policy (a kind
    either decides at once, or defers a candidate, or marks remote as a last
    resort); they are compared with [ExtensionService.pickRunningLocation]
    below and are not used by it. *)
Module PolicySpec.

Section Spec.

Variables isInstalledLocally isInstalledRemotely : bool.
Variable preference : ExtensionRunningPreference.t.

Definition prefers (p : ExtensionRunningPreference.t) : bool :=
  bool_decide (preference = p).

(** A [workspace] kind installed remotely, preference [None] or [Remote];
    a [web] kind installed locally, preference [None] or [Local];
    a [ui] kind installed remotely, preference [Remote]. *)
Definition immediate (kind : ExtensionKind) : bool :=
  (bool_decide (kind = "workspace") && isInstalledRemotely
     && (prefers ExtensionRunningPreference.None
         || prefers ExtensionRunningPreference.Remote))
  || (bool_decide (kind = "web") && isInstalledLocally
        && (prefers ExtensionRunningPreference.None
            || prefers ExtensionRunningPreference.Local))
  || (bool_decide (kind = "ui") && isInstalledRemotely
        && prefers ExtensionRunningPreference.Remote).

(** What a kind that decides at once decides. *)
Definition verdict (kind : ExtensionKind) : ExtensionRunningLocation.t :=
  if bool_decide (kind = "web") then ExtensionRunningLocation.LocalWebWorker
  else ExtensionRunningLocation.Remote.

(** [Remote] deferred by a [workspace] kind installed remotely under
    preference [Local]; [LocalWebWorker] deferred by a [web] kind installed
    locally under preference [Remote]. *)
Definition deferredBy (kind : ExtensionKind)
    : list ExtensionRunningLocation.t :=
  if bool_decide (kind = "workspace") && isInstalledRemotely
     && prefers ExtensionRunningPreference.Local
  then [ExtensionRunningLocation.Remote]
  else if bool_decide (kind = "web") && isInstalledLocally
          && prefers ExtensionRunningPreference.Remote
  then [ExtensionRunningLocation.LocalWebWorker]
  else [].

(** A [ui] kind installed remotely under preference [None] or [Local]. *)
Definition lastResortBy (kind : ExtensionKind) : bool :=
  bool_decide (kind = "ui") && isInstalledRemotely
  && (prefers ExtensionRunningPreference.None
      || prefers ExtensionRunningPreference.Local).

(** The deferred candidates in kind order, then the single last-resort
    [Remote] if some kind asked for it. *)
Definition candidates (kinds : list ExtensionKind)
    : list ExtensionRunningLocation.t :=
  flat_map deferredBy kinds
  ++ (if existsb lastResortBy kinds then [ExtensionRunningLocation.Remote]
      else []).

Definition firstCandidate (kinds : list ExtensionKind)
    : ExtensionRunningLocation.t :=
  match candidates kinds with
  | c :: _ => c
  | [] => ExtensionRunningLocation.None
  end.

End Spec.

(** The kinds of a list other than [ui], in order. *)
Definition withoutUi (kinds : list ExtensionKind) : list ExtensionKind :=
  filter (λ k, k ≠ "ui") kinds.

End PolicySpec.

(* ===================================================================== *)
(** * Filtering extensions by running location *)
(* ===================================================================== *)

Module ExtensionFiltering.

Section Filtering.

(** The extension descriptions and identifiers are declared outside the
    sources at hand; the code only reads [ext.identifier] and hands it to
    [ExtensionIdentifier.toKey], so both types and both functions are taken
    as they come. *)
Variables IExtensionDescription ExtensionIdentifier : Type.
Variable identifier : IExtensionDescription -> ExtensionIdentifier.
Variable toKey : ExtensionIdentifier -> string.

(** [runningLocation.get(ExtensionIdentifier.toKey(ext.identifier))
     === desiredRunningLocation]: a missing key gives [undefined], which is
    not any location. *)
Definition filterByRunningLocation (extensions : list IExtensionDescription)
    (runningLocation : gmap string ExtensionRunningLocation.t)
    (desiredRunningLocation : ExtensionRunningLocation.t)
    : list IExtensionDescription :=
  filter (λ ext, runningLocation !! toKey (identifier ext)
                 = Some desiredRunningLocation)
         extensions.

(** The part of [_scanAndHandleExtensions] between the classification and
    the registry: both lists are filtered down to their own side and the
    registry receives [remoteExtensions.concat(localExtensions)]. *)
Definition extensionsToRegister
    (runningLocation : gmap string ExtensionRunningLocation.t)
    (localExtensions remoteExtensions : list IExtensionDescription)
    : list IExtensionDescription :=
  let localExtensions :=
    filterByRunningLocation localExtensions runningLocation
      ExtensionRunningLocation.LocalWebWorker in
  let remoteExtensions :=
    filterByRunningLocation remoteExtensions runningLocation
      ExtensionRunningLocation.Remote in
  remoteExtensions ++ localExtensions.

End Filtering.

Arguments filterByRunningLocation {IExtensionDescription ExtensionIdentifier}
  identifier toKey extensions runningLocation desiredRunningLocation.
Arguments extensionsToRegister {IExtensionDescription ExtensionIdentifier}
  identifier toKey runningLocation localExtensions remoteExtensions.

End ExtensionFiltering.

(* ===================================================================== *)
(** * The preload script at start-up *)
(* ===================================================================== *)

Module PreloadStartup.

Import Stdlib.Strings.Ascii.
Import Preload.

(** [s.indexOf(needle)]: the position of the first occurrence, or -1. *)
Definition indexOf (s needle : string) : Z :=
  match String.index 0 needle s with
  | Some n => Z.of_nat n
  | None => (-1)%Z
  end.

(** [s.split(sep)] for a separator of one character. *)
Fixpoint split (sep : Ascii.ascii) (s : string) : list string :=
  match s with
  | EmptyString => [EmptyString]
  | String c rest =>
      if Ascii.eqb c sep then EmptyString :: split sep rest
      else match split sep rest with
           | piece :: pieces => String c piece :: pieces
           | [] => [String c EmptyString]
           end
  end.

(** [parseArgv(key)]; the arguments of the process, [process.argv], are
    handed in as [argv]. *)
Fixpoint parseArgv (argv : list string) (key : string) : option string :=
  match argv with
  | [] => None
  | arg :: rest =>
      if (indexOf arg ("--" +:+ key +:+ "=") =? 0)%Z then
        split "="%char arg !! 1%nat
      else parseArgv rest key
  end.

(** [try { body } catch (error) { handler }] *)
Definition tryCatch {A : Type} (body : M A) (handler : string -> M A) : M A :=
  λ w, match body w with
       | (Throw error, w') => handler error w'
       | done => done
       end.

(** An [async] function called at once, up to its first [await]: it
    answers with a promise, rejected if the body throws before awaiting. *)
Definition async (body : M unit) : M PromiseId :=
  newPromise (λ _, body).

(** [`${error}`] for an error made by [new Error(message)]. *)
Definition errorToString (message : string) : string :=
  "Error: " +:+ message.

(** [resolveConfiguration], up to the [await] of the main side's answer. *)
Definition resolveConfiguration (argv : list string) : M PromiseId :=
  async (
    let windowConfigIpcChannel := parseArgv argv "vscode-window-config" in
    match windowConfigIpcChannel with
    | Some channel =>
        if falsy channel then
          throw "Preload: did not find expected vscode-window-config in renderer process arguments list."
        else
          tryCatch
            (ok ← validateIPC channel;
             if (ok : bool) then
               (* Resolve configuration from electron-main *)
               electron.ipcRenderer.invoke channel [];; mret tt
             else mret tt)
            (λ error,
               throw ("Preload: unable to fetch vscode-window-config: "
                      +:+ errorToString error))
    | None =>
        throw "Preload: did not find expected vscode-window-config in renderer process arguments list."
    end).

(** The message of the error thrown when the channel is missing. *)
Definition noWindowConfig : string :=
  "Preload: did not find expected vscode-window-config in renderer process arguments list.".


(** What [resolveShellEnv] resolves to:
    [{ ...process.env, ...shellEnv, ...userEnv }]. *)
Definition shellEnvResult (env shellEnv userEnv : Env) : Env :=
  userEnv ∪ (shellEnv ∪ env).


(** ** Driving the exposed surface *)






Definition channelOf (c : IpcCall) : string :=
  match c with
  | Send channel _ | PostMessage channel _ _ | Invoke channel _
  | On channel _ | Once channel _ | RemoveListener channel _ => channel
  end.

(** Everything that reached the transport is on a ['vscode:'] channel and
    every listener on the node process listens for ['uncaughtException']. *)
Definition allowListed (w : World) : Prop :=
  Forall (λ c, String.prefix "vscode:" (channelOf c) = true) (ipcCalls w)
  ∧ Forall (λ tl, tl.1 = "uncaughtException") (processListeners w).

(** Whether a character occurs in a string. *)
Fixpoint occurs (c : Ascii.ascii) (s : string) : bool :=
  match s with
  | EmptyString => false
  | String c' rest => Ascii.eqb c' c || occurs c rest
  end.

End PreloadStartup.

(* ===================================================================== *)
(** * Notions used to state further properties of the policy *)
(* ===================================================================== *)

Module PolicyNotions.

(** A kind the extension can run as somewhere: [ui] or [workspace] when it
    is installed remotely, [web] when it is installed locally. *)
Definition usable (isInstalledLocally isInstalledRemotely : bool)
    (kind : ExtensionKind) : bool :=
  (bool_decide (kind = "ui") || bool_decide (kind = "workspace"))
    && isInstalledRemotely
  || bool_decide (kind = "web") && isInstalledLocally.

(** The three kinds the policy looks at. *)
Definition knownKinds : list ExtensionKind := ["ui"; "workspace"; "web"].

End PolicyNotions.

(* ===================================================================== *)
(** * Properties of the placement policy *)
(* ===================================================================== *)

Section PolicyFacts.

Import ExtensionService PolicySpec.

Implicit Types (l r : bool) (p : ExtensionRunningPreference.t).
Implicit Types (k : ExtensionKind) (kinds : list ExtensionKind).
Implicit Types (st : Locals).

Local Ltac crush_kind :=
  repeat case_bool_decide; subst; try discriminate; try congruence.

(** One iteration either returns the verdict of a deciding kind or goes on
    with the kind's deferred candidate pushed and the last-resort flag
    raised. *)
Lemma loopBody_spec l r p k st :
  loopBody l r p k st =
    if immediate l r p k then Return (verdict k)
    else Continue (mkLocals (result st ++ deferredBy l r p k)
                            (canRunRemotely st || lastResortBy r p k)).
Proof.
  destruct st as [res crr].
  unfold loopBody, ifUi, ifWorkspace, ifWeb, immediate, verdict,
    deferredBy, lastResortBy, prefers, push, andThen.
  destruct l, r, p; crush_kind; cbn;
    rewrite ?app_nil_r, ?orb_false_r, ?orb_true_r; reflexivity.
Qed.

(** The whole loop: the first deciding kind returns; without one, all
    deferred candidates are collected in order. *)
Lemma forOf_spec l r p kinds st :
  forOf l r p kinds st =
    match List.find (immediate l r p) kinds with
    | Some k => Return (verdict k)
    | None =>
        Continue (mkLocals
                    (result st ++ flat_map (deferredBy l r p) kinds)
                    (canRunRemotely st || existsb (lastResortBy r p) kinds))
    end.
Proof.
  revert st. induction kinds as [|k kinds IH]; intros st; cbn.
  - rewrite app_nil_r, orb_false_r. by destruct st.
  - rewrite loopBody_spec. destruct (immediate l r p k); cbn; [done|].
    rewrite IH. destruct (List.find _ kinds); [done|]. cbn.
    by rewrite <- app_assoc, orb_assoc.
Qed.

Lemma pickRunningLocation_spec kinds l r p :
  pickRunningLocation kinds l r p =
    match List.find (immediate l r p) kinds with
    | Some k => verdict k
    | None => firstCandidate l r p kinds
    end.
Proof.
  unfold pickRunningLocation. rewrite forOf_spec.
  destruct (List.find _ kinds); [done|].
  unfold afterLoop, firstCandidate, candidates, push. cbn.
  destruct (existsb _ kinds); cbn; by rewrite ?app_nil_r.
Qed.

(** No kind of a list decides at once exactly when the search for the
    first deciding kind comes back empty. *)
Lemma find_immediate_none l r p kinds :
  (∀ k, k ∈ kinds → immediate l r p k = false) →
  List.find (immediate l r p) kinds = None.
Proof.
  induction kinds as [|k kinds IH]; intros Hno; cbn; [done|].
  rewrite (Hno k) by set_solver. apply IH. intros k' Hk'. apply Hno. set_solver.
Qed.

(** A deciding kind in the list means some kind decides first. *)
Lemma find_immediate_some l r p kinds k :
  k ∈ kinds → immediate l r p k = true →
  ∃ k', List.find (immediate l r p) kinds = Some k'
        ∧ immediate l r p k' = true.
Proof.
  induction kinds as [|k0 kinds IH]; intros Hin Hk; [set_solver|]. cbn.
  destruct (immediate l r p k0) eqn:E0; [by eauto|].
  apply IH; [|done]. apply elem_of_cons in Hin as [->|]; [congruence|done].
Qed.

Lemma bool_decide_elem_of_cons (x k0 : ExtensionKind) kinds :
  bool_decide (x ∈ k0 :: kinds)
  = bool_decide (k0 = x) || bool_decide (x ∈ kinds).
Proof.
  destruct (decide (k0 = x)) as [->|Hne].
  - rewrite (bool_decide_eq_true_2 (x ∈ x :: kinds))
      by apply list_elem_of_here.
    by rewrite (bool_decide_eq_true_2 (x = x)).
  - rewrite (bool_decide_eq_false_2 (k0 = x)) by done. cbn.
    apply bool_decide_ext. rewrite elem_of_cons.
    split; [intros [Heq|Hin]; [congruence|done] | by right].
Qed.

(** C1. When no kind of the list triggers an immediate return, the policy
    returns the first deferred candidate in kind order ([Remote] deferred
    by workspace/remote under preference [Local], [LocalWebWorker] deferred
    by web/local under preference [Remote]), with the single last-resort
    [Remote] of ui/remote kinds coming after all of them, and [None] when
    there is no candidate at all. *)
Theorem pickRunningLocation_first_deferred kinds l r p :
  (∀ k, k ∈ kinds → immediate l r p k = false) →
  pickRunningLocation kinds l r p = firstCandidate l r p kinds.
Proof.
  intros Hno. rewrite pickRunningLocation_spec.
  by rewrite find_immediate_none.
Qed.

Lemma pickRunningLocation_first_deferred_witness :
  (∀ k, k ∈ ["ui"; "workspace"; "web"] →
        immediate false true ExtensionRunningPreference.Local k = false)
  ∧ pickRunningLocation ["ui"; "workspace"; "web"] false true
      ExtensionRunningPreference.Local
    = firstCandidate false true ExtensionRunningPreference.Local
        ["ui"; "workspace"; "web"].
Proof.
  assert (H : ∀ k, k ∈ ["ui"; "workspace"; "web"] →
            immediate false true ExtensionRunningPreference.Local k = false).
  { intros k Hk. repeat (apply elem_of_cons in Hk as [->|Hk]);
      [reflexivity..|by apply elem_of_nil in Hk]. }
  split; [exact H|].
  exact (pickRunningLocation_first_deferred _ _ _ _ H).
Defined.

(** The claim that a list containing [workspace], installed remotely, with
    preference [None] always yields [Remote] fails: an earlier [web] kind
    installed locally decides first. *)
Lemma workspace_not_always_remote :
  ("workspace" ∈ ["web"; "workspace"])
  ∧ pickRunningLocation ["web"; "workspace"] true true
      ExtensionRunningPreference.None
    = ExtensionRunningLocation.LocalWebWorker
  ∧ pickRunningLocation ["web"; "workspace"] true true
      ExtensionRunningPreference.None
    ≠ ExtensionRunningLocation.Remote.
Proof.
  split; [apply list_elem_of_further, list_elem_of_here|].
  split; [reflexivity|discriminate].
Qed.

(** C2 (amended). With the extension installed remotely and preference
    [None] or [Remote], the loop returns [Remote] on the spot when it
    reaches a [workspace] kind; a list yields [Remote] whatever follows its
    first [workspace] kind, except that under preference [None] a [web]
    kind installed locally that comes before it decides first and yields
    [LocalWebWorker]. *)
Theorem workspace_remote_unless_web_first pre post l p :
  "workspace" ∉ pre →
  p ≠ ExtensionRunningPreference.Local →
  (∀ st, loopBody l true p "workspace" st
         = Return ExtensionRunningLocation.Remote)
  ∧ pickRunningLocation (pre ++ "workspace" :: post) l true p =
      if bool_decide (p = ExtensionRunningPreference.None) && l
         && bool_decide ("web" ∈ pre)
      then ExtensionRunningLocation.LocalWebWorker
      else ExtensionRunningLocation.Remote.
Proof.
  intros Hpre Hp. split.
  { intros st. rewrite loopBody_spec. by destruct l, p. }
  rewrite pickRunningLocation_spec.
  assert (∃ k, List.find (immediate l true p) (pre ++ "workspace" :: post)
               = Some k
             ∧ verdict k =
                 if bool_decide (p = ExtensionRunningPreference.None) && l
                    && bool_decide ("web" ∈ pre)
                 then ExtensionRunningLocation.LocalWebWorker
                 else ExtensionRunningLocation.Remote) as (k & -> & ->);
    [|done].
  induction pre as [|k0 pre IH]; cbn.
  - exists "workspace". destruct l, p; done.
  - apply not_elem_of_cons in Hpre as [Hk0 Hpre].
    destruct (immediate l true p k0) eqn:E0.
    + exists k0. split; [done|]. rewrite bool_decide_elem_of_cons.
      unfold immediate, prefers in E0. unfold verdict.
      destruct l, p; crush_kind; done.
    + destruct (IH Hpre) as (k & Hfind & Hk). exists k. split; [done|].
      rewrite Hk, bool_decide_elem_of_cons.
      unfold immediate, prefers in E0.
      destruct l, p; crush_kind; done.
Qed.

Lemma workspace_remote_unless_web_first_witness :
  ("workspace" ∉ ["ui"; "web"])
  ∧ ExtensionRunningPreference.Remote ≠ ExtensionRunningPreference.Local
  ∧ pickRunningLocation (["ui"; "web"] ++ "workspace" :: ["web"]) true true
      ExtensionRunningPreference.Remote
    = ExtensionRunningLocation.Remote.
Proof.
  assert (H1 : "workspace" ∉ ["ui"; "web"]).
  { intros Hin. repeat (apply elem_of_cons in Hin as [Hin|Hin]);
      [discriminate..|by apply elem_of_nil in Hin]. }
  assert (H2 : ExtensionRunningPreference.Remote
               ≠ ExtensionRunningPreference.Local) by discriminate.
  split; [exact H1|]. split; [exact H2|].
  exact (proj2 (workspace_remote_unless_web_first ["ui"; "web"] ["web"] true
                  ExtensionRunningPreference.Remote H1 H2)).
Defined.

(** The claim that a list containing [web], installed locally, with
    preference [None] always yields [LocalWebWorker] fails: an earlier
    [workspace] kind installed remotely decides first. *)
Lemma web_not_always_local :
  ("web" ∈ ["workspace"; "web"])
  ∧ pickRunningLocation ["workspace"; "web"] true true
      ExtensionRunningPreference.None
    = ExtensionRunningLocation.Remote
  ∧ pickRunningLocation ["workspace"; "web"] true true
      ExtensionRunningPreference.None
    ≠ ExtensionRunningLocation.LocalWebWorker.
Proof.
  split; [apply list_elem_of_further, list_elem_of_here|].
  split; [reflexivity|discriminate].
Qed.

(** C3 (amended). With the extension installed locally and preference
    [None] or [Local], the loop returns [LocalWebWorker] on the spot when
    it reaches a [web] kind; a list yields [LocalWebWorker] whatever
    follows its first [web] kind, except that under preference [None] a
    [workspace] kind installed remotely that comes before it decides first
    and yields [Remote]. *)
Theorem web_local_unless_workspace_first pre post r p :
  "web" ∉ pre →
  p ≠ ExtensionRunningPreference.Remote →
  (∀ st, loopBody true r p "web" st
         = Return ExtensionRunningLocation.LocalWebWorker)
  ∧ pickRunningLocation (pre ++ "web" :: post) true r p =
      if bool_decide (p = ExtensionRunningPreference.None) && r
         && bool_decide ("workspace" ∈ pre)
      then ExtensionRunningLocation.Remote
      else ExtensionRunningLocation.LocalWebWorker.
Proof.
  intros Hpre Hp. split.
  { intros st. rewrite loopBody_spec. by destruct r, p. }
  rewrite pickRunningLocation_spec.
  assert (∃ k, List.find (immediate true r p) (pre ++ "web" :: post) = Some k
             ∧ verdict k =
                 if bool_decide (p = ExtensionRunningPreference.None) && r
                    && bool_decide ("workspace" ∈ pre)
                 then ExtensionRunningLocation.Remote
                 else ExtensionRunningLocation.LocalWebWorker)
    as (k & -> & ->); [|done].
  induction pre as [|k0 pre IH]; cbn.
  - exists "web". destruct r, p; done.
  - apply not_elem_of_cons in Hpre as [Hk0 Hpre].
    destruct (immediate true r p k0) eqn:E0.
    + exists k0. split; [done|]. rewrite bool_decide_elem_of_cons.
      unfold immediate, prefers in E0. unfold verdict.
      destruct r, p; crush_kind; done.
    + destruct (IH Hpre) as (k & Hfind & Hk). exists k. split; [done|].
      rewrite Hk, bool_decide_elem_of_cons.
      unfold immediate, prefers in E0.
      destruct r, p; crush_kind; done.
Qed.

Lemma web_local_unless_workspace_first_witness :
  ("web" ∉ ["ui"; "workspace"])
  ∧ ExtensionRunningPreference.Local ≠ ExtensionRunningPreference.Remote
  ∧ pickRunningLocation (["ui"; "workspace"] ++ "web" :: ["ui"]) true true
      ExtensionRunningPreference.Local
    = ExtensionRunningLocation.LocalWebWorker.
Proof.
  assert (H1 : "web" ∉ ["ui"; "workspace"]).
  { intros Hin. repeat (apply elem_of_cons in Hin as [Hin|Hin]);
      [discriminate..|by apply elem_of_nil in Hin]. }
  assert (H2 : ExtensionRunningPreference.Local
               ≠ ExtensionRunningPreference.Remote) by discriminate.
  split; [exact H1|]. split; [exact H2|].
  exact (proj2 (web_local_unless_workspace_first ["ui"; "workspace"] ["ui"]
                  true ExtensionRunningPreference.Local H1 H2)).
Defined.

(** Facts about lists from which the [ui] kinds are dropped. *)
Lemma withoutUi_cons k kinds :
  withoutUi (k :: kinds)
  = if bool_decide (k = "ui") then withoutUi kinds else k :: withoutUi kinds.
Proof.
  unfold withoutUi. rewrite filter_cons.
  case_decide; case_bool_decide; done.
Qed.

Lemma find_immediate_withoutUi l r p kinds :
  immediate l r p "ui" = false →
  List.find (immediate l r p) (withoutUi kinds)
  = List.find (immediate l r p) kinds.
Proof.
  intros Hui. induction kinds as [|k kinds IH]; [done|].
  rewrite withoutUi_cons. case_bool_decide; subst; cbn.
  - by rewrite Hui.
  - by rewrite IH.
Qed.

Lemma deferred_withoutUi l r p kinds :
  flat_map (deferredBy l r p) (withoutUi kinds)
  = flat_map (deferredBy l r p) kinds.
Proof.
  induction kinds as [|k kinds IH]; [done|].
  rewrite withoutUi_cons. case_bool_decide; subst; cbn.
  - rewrite IH. unfold deferredBy. by destruct l, r.
  - by rewrite IH.
Qed.

Lemma lastResort_withoutUi r p kinds :
  existsb (lastResortBy r p) (withoutUi kinds) = false.
Proof.
  induction kinds as [|k kinds IH]; [done|].
  rewrite withoutUi_cons. case_bool_decide; subst; cbn; [done|].
  rewrite IH. unfold lastResortBy. by rewrite bool_decide_eq_false_2.
Qed.

Lemma lastResort_ui p kinds :
  "ui" ∈ kinds → p ≠ ExtensionRunningPreference.Remote →
  existsb (lastResortBy true p) kinds = true.
Proof.
  intros Hin Hp. apply existsb_exists. exists "ui".
  split; [by apply list_elem_of_In|]. by destruct p.
Qed.

(** What the policy can answer, and on what grounds. *)
Lemma verdict_sound l r p k :
  immediate l r p k = true →
  verdict k ≠ ExtensionRunningLocation.None
  ∧ (verdict k = ExtensionRunningLocation.Remote → r = true)
  ∧ (verdict k = ExtensionRunningLocation.LocalWebWorker → l = true).
Proof.
  unfold immediate, verdict, prefers.
  destruct l, r, p; crush_kind; cbn; intros; done.
Qed.

Lemma deferred_sound l r p kinds c :
  c ∈ flat_map (deferredBy l r p) kinds →
  c ≠ ExtensionRunningLocation.None
  ∧ (c = ExtensionRunningLocation.Remote → r = true)
  ∧ (c = ExtensionRunningLocation.LocalWebWorker → l = true).
Proof.
  rewrite list_elem_of_In, in_flat_map. intros (k & _ & Hc). revert Hc.
  unfold deferredBy, prefers.
  destruct l, r, p; crush_kind; cbn;
    first [intros [<-|[]]; done | intros []].
Qed.

Lemma lastResort_sound r p kinds :
  existsb (lastResortBy r p) kinds = true → r = true.
Proof.
  rewrite existsb_exists. intros (k & _ & Hk). revert Hk.
  unfold lastResortBy. destruct r; [done|]. by rewrite andb_false_r.
Qed.

(** C4. With the extension installed remotely and a [ui] kind in the list:
    under preference [Remote] the [ui] kind returns [Remote] on the spot and
    [Remote] is the answer; under preference [None] or [Local] the [ui]
    kind never returns, leaves the deferred candidates as they are and only
    raises the last-resort flag, so that the answer is that of the list
    without its [ui] kinds, and [Remote] only where that one has none. *)
Theorem ui_remote_last_resort kinds l :
  "ui" ∈ kinds →
  ((∀ st, loopBody l true ExtensionRunningPreference.Remote "ui" st
          = Return ExtensionRunningLocation.Remote)
   ∧ pickRunningLocation kinds l true ExtensionRunningPreference.Remote
     = ExtensionRunningLocation.Remote)
  ∧ (∀ p, p ≠ ExtensionRunningPreference.Remote →
       (∀ st, loopBody l true p "ui" st
              = Continue (mkLocals (result st) true))
       ∧ pickRunningLocation kinds l true p
         = match pickRunningLocation (withoutUi kinds) l true p with
           | ExtensionRunningLocation.None => ExtensionRunningLocation.Remote
           | decided => decided
           end).
Proof.
  intros Hin. split; [split|].
  - intros st. rewrite loopBody_spec. by destruct l.
  - rewrite pickRunningLocation_spec.
    destruct (find_immediate_some l true ExtensionRunningPreference.Remote
                kinds "ui" Hin) as (k & -> & Hk).
    { by destruct l. }
    revert Hk. unfold immediate, verdict, prefers.
    destruct l; crush_kind; done.
  - intros p Hp.
    assert (Hui : immediate l true p "ui" = false) by (by destruct l, p).
    split.
    + intros [res crr]. rewrite loopBody_spec, Hui. cbn.
      unfold deferredBy, lastResortBy, prefers.
      destruct l, p; cbn; rewrite ?app_nil_r, ?orb_true_r; done.
    + rewrite !pickRunningLocation_spec, find_immediate_withoutUi by done.
      destruct (List.find _ kinds) as [k|] eqn:Efind.
      * apply find_some in Efind as [_ Hk].
        destruct (verdict_sound _ _ _ _ Hk) as (Hnone & _).
        by destruct (verdict k).
      * unfold firstCandidate, candidates.
        rewrite deferred_withoutUi, lastResort_withoutUi, lastResort_ui,
          app_nil_r by done.
        destruct (flat_map _ kinds) as [|c cs] eqn:Edef; [done|]. cbn.
        destruct (deferred_sound l true p kinds c) as (Hnone & _).
        { rewrite Edef. apply list_elem_of_here. }
        by destruct c.
Qed.

Lemma ui_remote_last_resort_witness :
  ("ui" ∈ ["ui"; "web"])
  ∧ pickRunningLocation ["ui"; "web"] true true
      ExtensionRunningPreference.Remote
    = ExtensionRunningLocation.Remote
  ∧ pickRunningLocation ["ui"; "web"] false true
      ExtensionRunningPreference.Local
    = ExtensionRunningLocation.Remote.
Proof.
  assert (Hin : "ui" ∈ ["ui"; "web"]) by apply list_elem_of_here.
  split; [exact Hin|]. split.
  - exact (proj2 (proj1 (ui_remote_last_resort ["ui"; "web"] true Hin))).
  - exact (proj2 (proj2 (ui_remote_last_resort ["ui"; "web"] false Hin)
                   ExtensionRunningPreference.Local ltac:(discriminate))).
Defined.

(** C5. The list [['ui']], installed neither remotely nor locally, yields
    [None] under every preference. *)
Theorem ui_not_installed_none p :
  pickRunningLocation ["ui"] false false p = ExtensionRunningLocation.None.
Proof. by destruct p. Qed.

(** C6. The list [['workspace','web']], installed on both sides, under
    preference [Local]: the [web] kind returns [LocalWebWorker] although
    the [workspace] kind before it had deferred [Remote]. *)
Theorem workspace_web_local_prefers_web :
  forOf true true ExtensionRunningPreference.Local ["workspace"]
    (mkLocals [] false)
  = Continue (mkLocals [ExtensionRunningLocation.Remote] false)
  ∧ pickRunningLocation ["workspace"; "web"] true true
      ExtensionRunningPreference.Local
    = ExtensionRunningLocation.LocalWebWorker.
Proof. split; reflexivity. Qed.

(** C10. The policy answers [Remote] only for an extension installed
    remotely and [LocalWebWorker] only for one installed locally; for the
    empty list of kinds it answers [None]. *)
Theorem pickRunningLocation_respects_installation kinds l r p :
  (pickRunningLocation kinds l r p = ExtensionRunningLocation.Remote
   → r = true)
  ∧ (pickRunningLocation kinds l r p = ExtensionRunningLocation.LocalWebWorker
     → l = true)
  ∧ pickRunningLocation [] l r p = ExtensionRunningLocation.None.
Proof.
  split; [|split; [|reflexivity]]; rewrite pickRunningLocation_spec.
  all: destruct (List.find _ kinds) as [k|] eqn:Efind.
  all: try (apply find_some in Efind as [_ Hk];
            destruct (verdict_sound _ _ _ _ Hk) as (_ & HR & HL); done).
  all: unfold firstCandidate, candidates.
  all: destruct (flat_map _ kinds) as [|c cs] eqn:Edef; cbn.
  all: try (destruct (deferred_sound l r p kinds c) as (_ & HR & HL);
            [rewrite Edef; apply list_elem_of_here | done]).
  all: destruct (existsb _ kinds) eqn:Elast; [|done].
  - intros _. by apply lastResort_sound in Elast.
  - done.
Qed.

Lemma pickRunningLocation_respects_installation_witness :
  pickRunningLocation ["workspace"] false true ExtensionRunningPreference.None
  = ExtensionRunningLocation.Remote
  ∧ true = true.
Proof.
  assert (H : pickRunningLocation ["workspace"] false true
                ExtensionRunningPreference.None
              = ExtensionRunningLocation.Remote) by reflexivity.
  split; [exact H|].
  exact (proj1 (pickRunningLocation_respects_installation ["workspace"]
                  false true ExtensionRunningPreference.None) H).
Defined.

End PolicyFacts.

(* ===================================================================== *)
(** * Properties of the preload bridge *)
(* ===================================================================== *)

Section PreloadFacts.

Import Preload.

Implicit Types (w : World) (channel type : string) (userEnv : Env).

(** Running a statement after one that throws throws the same error. *)
Lemma bind_throw {A B : Type} (m : M A) (k : A -> M B) w e w' :
  m w = (Throw e, w') → (m ≫= k) w = (Throw e, w').
Proof. intros H. unfold mbind, M_bind. by rewrite H. Qed.

Lemma bind_ok {A B : Type} (m : M A) (k : A -> M B) w a w' :
  m w = (Ok a, w') → (m ≫= k) w = k a w'.
Proof. intros H. unfold mbind, M_bind. by rewrite H. Qed.

Lemma validateIPC_invalid channel w :
  String.prefix "vscode:" channel = false →
  validateIPC channel w
  = (Throw ("Unsupported event IPC channel '" +:+ channel +:+ "'"), w).
Proof.
  intros H. unfold validateIPC. by rewrite H, orb_true_r.
Qed.

(** C7. A channel that does not start with ['vscode:'] (the empty string
    included) makes each of the six exposed [ipcRenderer] methods throw,
    with the world, and so the record of calls that reached Electron's
    transport, exactly as before the call. *)
Theorem invalid_channel_throws channel w :
  String.prefix "vscode:" channel = false →
  let message := "Unsupported event IPC channel '" +:+ channel +:+ "'" in
  (∀ args, globals.ipcRenderer.send channel args w = (Throw message, w))
  ∧ (∀ msg transfer,
       globals.ipcRenderer.postMessage channel msg transfer w
       = (Throw message, w))
  ∧ (∀ args, globals.ipcRenderer.invoke channel args w = (Throw message, w))
  ∧ (∀ listener,
       globals.ipcRenderer.on channel listener w = (Throw message, w))
  ∧ (∀ listener,
       globals.ipcRenderer.once channel listener w = (Throw message, w))
  ∧ (∀ listener,
       globals.ipcRenderer.removeListener channel listener w
       = (Throw message, w)).
Proof.
  intros H message.
  pose proof (validateIPC_invalid channel w H) as Hv.
  repeat split; intros; by apply bind_throw.
Qed.

Lemma invalid_channel_throws_witness :
  String.prefix "vscode:" "" = false
  ∧ globals.ipcRenderer.send "" [Str "ping"] (startWorld ∅)
    = (Throw "Unsupported event IPC channel ''", startWorld ∅)
  ∧ String.prefix "vscode:" "vscode" = false
  ∧ globals.ipcRenderer.invoke "vscode" [] (startWorld ∅)
    = (Throw "Unsupported event IPC channel 'vscode'", startWorld ∅).
Proof.
  assert (H1 : String.prefix "vscode:" "" = false) by reflexivity.
  assert (H2 : String.prefix "vscode:" "vscode" = false) by reflexivity.
  split; [exact H1|]. split.
  - exact (proj1 (invalid_channel_throws "" (startWorld ∅) H1) [Str "ping"]).
  - split; [exact H2|].
    exact (proj1 (proj2 (proj2
             (invalid_channel_throws "vscode" (startWorld ∅) H2))) []).
Defined.

(** C8. The exposed [process.on] throws for every event type other than
    ['uncaughtException'] and registers nothing; for
    ['uncaughtException'] it registers the callback on the node process
    and does not throw. *)
Theorem process_on_only_uncaughtException type callback w :
  (type ≠ "uncaughtException" →
   globals.process.on type callback w
   = (Throw ("Unsupported process event '" +:+ type +:+ "'"), w))
  ∧ globals.process.on "uncaughtException" callback w
    = (Ok tt,
       set_processListeners
         (processListeners w ++ [("uncaughtException", callback)]) w).
Proof.
  split; [|reflexivity].
  intros Hne. apply bind_throw. unfold validateProcessEventType.
  by rewrite bool_decide_eq_false_2.
Qed.

Lemma process_on_only_uncaughtException_witness :
  "exit" ≠ "uncaughtException"
  ∧ globals.process.on "exit" (Callback 0) (startWorld ∅)
    = (Throw "Unsupported process event 'exit'", startWorld ∅).
Proof.
  assert (H : "exit" ≠ "uncaughtException") by discriminate.
  split; [exact H|].
  exact (proj1 (process_on_only_uncaughtException "exit" (Callback 0)
                  (startWorld ∅)) H).
Defined.

(** Once the module variable holds a promise, a call answers with it and
    touches nothing. *)
Lemma resolveEnv_cached w userEnv p :
  resolvedEnv w = Some p → resolveEnv userEnv w = (Ok (Some p), w).
Proof.
  intros H. unfold resolveEnv, mbind, M_bind, gets. cbn.
  rewrite H. cbn. by rewrite H.
Qed.

(** When the main side answers, the listener of the first call assigns the
    shell environment and then the first caller's [userEnv], which wins. *)
Lemma acceptShellEnv_user_wins w userEnv resolve (shellEnv : Env) :
  process_env (acceptShellEnv userEnv resolve shellEnv w).2
  = userEnv ∪ (shellEnv ∪ process_env w).
Proof.
  unfold acceptShellEnv, mbind, M_bind, Object_assign_process_env, modify,
    settle.
  cbn. by destruct (promises w !! resolve) as [[]|].
Qed.

Lemma calls_resolveEnv_cached w p (later : list Env) :
  resolvedEnv w = Some p →
  calls globals.process.resolveEnv later w
  = (Ok (replicate (length later) (Some p)), w).
Proof.
  intros H. induction later as [|userEnv later IH]; [done|].
  cbn [calls length replicate]. unfold mbind, M_bind.
  change (globals.process.resolveEnv userEnv w) with (resolveEnv userEnv w).
  by rewrite (resolveEnv_cached _ _ _ H), IH.
Qed.

(** C9. The first call of [resolveEnv] (the module variable still unset)
    assigns [userEnv] over [process.env], registers the answer listener,
    sends ['vscode:fetchShellEnv'] exactly once and stores the fresh
    promise it returns; from then on every call, whatever its argument,
    returns that same promise and leaves the world (environment and
    transport record included) untouched. *)
Theorem resolveEnv_caches w userEnv :
  resolvedEnv w = None →
  let p := length (promises w) in
  let w1 :=
    mkWorld (userEnv ∪ process_env w) (Some p) (promises w ++ [Pending])
      (ipcCalls w
       ++ [Once "vscode:acceptShellEnv" (AcceptShellEnv userEnv p);
           Send "vscode:fetchShellEnv" []])
      (processListeners w) in
  globals.process.resolveEnv userEnv w = (Ok (Some p), w1)
  ∧ sentOn "vscode:fetchShellEnv" w1 = S (sentOn "vscode:fetchShellEnv" w)
  ∧ (∀ later : list Env,
       calls globals.process.resolveEnv later w1
       = (Ok (replicate (length later) (Some p)), w1))
  ∧ (∀ w' userEnv',
       resolvedEnv w' = Some p →
       globals.process.resolveEnv userEnv' w' = (Ok (Some p), w')).
Proof.
  intros Hnone p w1. split; [|split; [|split]].
  - unfold globals.process.resolveEnv, resolveEnv, mbind, M_bind, gets.
    cbn. rewrite Hnone. cbn. subst w1 p.
    unfold set_resolvedEnv, set_ipcCalls, set_promises, set_process_env.
    cbn. by rewrite <- app_assoc.
  - unfold sentOn. subst w1. cbn [ipcCalls].
    rewrite List.filter_app, length_app. cbn.
    rewrite bool_decide_eq_true_2 by done. cbn. lia.
  - intros later. by apply calls_resolveEnv_cached.
  - intros w' userEnv' H'. by apply resolveEnv_cached.
Qed.

Lemma resolveEnv_caches_witness :
  resolvedEnv (startWorld {["HOME" := "/root"]}) = None
  ∧ calls globals.process.resolveEnv
      [{["EDITOR" := "vi"]}; ∅]
      (mkWorld ({["LANG" := "C"]} ∪ {["HOME" := "/root"]}) (Some 0)
         [Pending]
         [Once "vscode:acceptShellEnv"
            (AcceptShellEnv {["LANG" := "C"]} 0);
          Send "vscode:fetchShellEnv" []]
         [])
    = (Ok [Some 0; Some 0],
       mkWorld ({["LANG" := "C"]} ∪ {["HOME" := "/root"]}) (Some 0)
         [Pending]
         [Once "vscode:acceptShellEnv"
            (AcceptShellEnv {["LANG" := "C"]} 0);
          Send "vscode:fetchShellEnv" []]
         []).
Proof.
  assert (H : resolvedEnv (startWorld {["HOME" := "/root"]}) = None)
    by reflexivity.
  split; [exact H|].
  exact (proj1 (proj2 (proj2
           (resolveEnv_caches (startWorld {["HOME" := "/root"]})
              {["LANG" := "C"]} H)))
         [{["EDITOR" := "vi"]}; ∅]).
Defined.

End PreloadFacts.


(* ===================================================================== *)
(** * Further properties of the placement policy *)
(* ===================================================================== *)

Section PolicyMore.

Import ExtensionService PolicySpec PolicyNotions.

Implicit Types (l r : bool) (p : ExtensionRunningPreference.t).
Implicit Types (k : ExtensionKind) (kinds : list ExtensionKind).

Local Ltac by_kind :=
  repeat case_bool_decide; subst; try discriminate; try congruence.

(** A usable kind decides at once, defers a candidate or asks for the last
    resort, whatever the preference; a kind that is not usable does none of
    these. *)
Lemma usable_split l r p k :
  usable l r k
  = immediate l r p k
    || (if deferredBy l r p k is [] then false else true)
    || lastResortBy r p k.
Proof.
  unfold usable, immediate, deferredBy, lastResortBy, prefers.
  destruct l, r, p; by_kind; reflexivity.
Qed.

Lemma candidates_nil_iff l r p kinds :
  (∀ k, k ∈ kinds → immediate l r p k = false) →
  candidates l r p kinds = [] ↔ existsb (usable l r) kinds = false.
Proof.
  unfold candidates. induction kinds as [|k kinds IH]; intros Hno; [done|].
  cbn [flat_map existsb]. rewrite (usable_split l r p k).
  rewrite (Hno k) by apply list_elem_of_here.
  assert (IH' := IH (λ k' Hk', Hno k' (list_elem_of_further _ _ _ Hk'))).
  clear IH Hno. cbn [orb].
  destruct (deferredBy l r p k) as [|c cs]; cbn.
  - destruct (lastResortBy r p k); cbn; [|exact IH'].
    split; [|done]. intros H. by apply app_eq_nil in H as [_ ?].
  - split; done.
Qed.

Lemma candidates_head_not_none l r p kinds c cs :
  candidates l r p kinds = c :: cs → c ≠ ExtensionRunningLocation.None.
Proof.
  unfold candidates. intros Hc.
  destruct (flat_map (deferredBy l r p) kinds) as [|d ds] eqn:Edef.
  - cbn in Hc. destruct (existsb _ kinds); [|done]. by inversion Hc.
  - inversion Hc; subst.
    apply (deferred_sound l r p kinds). rewrite Edef. apply list_elem_of_here.
Qed.

(** Whether the policy places the extension at all is a matter of usable
    kinds only. *)
Lemma pick_none_iff kinds l r p :
  pickRunningLocation kinds l r p = ExtensionRunningLocation.None
  ↔ existsb (usable l r) kinds = false.
Proof.
  rewrite pickRunningLocation_spec.
  destruct (List.find _ kinds) as [k|] eqn:Efind.
  - apply find_some in Efind as [Hin Hk].
    destruct (verdict_sound _ _ _ _ Hk) as (Hnone & _).
    split; [done|]. intros Hex. exfalso.
    assert (existsb (usable l r) kinds = true); [|congruence].
    apply existsb_exists. exists k. split; [done|].
    by rewrite (usable_split l r p), Hk.
  - assert (Hno : ∀ k, k ∈ kinds → immediate l r p k = false).
    { intros k Hk. apply list_elem_of_In in Hk.
      exact (find_none _ _ Efind k Hk). }
    rewrite <- (candidates_nil_iff l r p kinds Hno). unfold firstCandidate.
    destruct (candidates l r p kinds) as [|c cs] eqn:Ec; [done|].
    split; [|done]. intros ->. by apply candidates_head_not_none in Ec.
Qed.

(** The policy never answers for a side the extension is not installed
    on. *)
Lemma pick_sound kinds l r p :
  (pickRunningLocation kinds l r p = ExtensionRunningLocation.Remote
   → r = true)
  ∧ (pickRunningLocation kinds l r p = ExtensionRunningLocation.LocalWebWorker
     → l = true).
Proof.
  rewrite pickRunningLocation_spec.
  destruct (List.find _ kinds) as [k|] eqn:Efind.
  { apply find_some in Efind as [_ Hk].
    by destruct (verdict_sound _ _ _ _ Hk) as (_ & HR & HL). }
  unfold firstCandidate, candidates.
  destruct (flat_map _ kinds) as [|c cs] eqn:Edef; cbn.
  - destruct (existsb _ kinds) eqn:Elast; [|done].
    apply lastResort_sound in Elast. done.
  - destruct (deferred_sound l r p kinds c) as (_ & HR & HL); [|done].
    rewrite Edef. apply list_elem_of_here.
Qed.

Lemma existsb_usable_iff kinds l r :
  existsb (usable l r) kinds = true
  ↔ (r = true ∧ ("ui" ∈ kinds ∨ "workspace" ∈ kinds))
    ∨ (l = true ∧ "web" ∈ kinds).
Proof.
  rewrite existsb_exists. unfold usable. split.
  - intros (k & Hin%list_elem_of_In & Hk).
    destruct l, r; by_kind; cbn in Hk; try discriminate; eauto.
  - intros [[-> [Hin|Hin]]|[-> Hin]]; apply list_elem_of_In in Hin.
    + exists "ui". by destruct l.
    + exists "workspace". by destruct l.
    + exists "web". by destruct r.
Qed.

(** X1. The policy places the extension somewhere exactly when one of its
    kinds is usable: [ui] or [workspace] with the extension installed
    remotely, or [web] with it installed locally.  The preference has no
    say in this. *)
Theorem placed_iff_usable_kind kinds l r p :
  pickRunningLocation kinds l r p ≠ ExtensionRunningLocation.None
  ↔ (r = true ∧ ("ui" ∈ kinds ∨ "workspace" ∈ kinds))
    ∨ (l = true ∧ "web" ∈ kinds).
Proof.
  rewrite <- existsb_usable_iff, pick_none_iff.
  by destruct (existsb (usable l r) kinds).
Qed.

(** X2. With the extension installed on one side only, the preference is
    irrelevant: installed only remotely it runs remotely when it has a [ui]
    or [workspace] kind, installed only locally it runs in the web worker
    when it has a [web] kind, and otherwise nowhere. *)
Theorem one_sided_installation kinds p :
  pickRunningLocation kinds false true p
  = (if bool_decide ("ui" ∈ kinds ∨ "workspace" ∈ kinds)
     then ExtensionRunningLocation.Remote
     else ExtensionRunningLocation.None)
  ∧ pickRunningLocation kinds true false p
    = (if bool_decide ("web" ∈ kinds)
       then ExtensionRunningLocation.LocalWebWorker
       else ExtensionRunningLocation.None)
  ∧ pickRunningLocation kinds false false p = ExtensionRunningLocation.None.
Proof.
  split; [|split].
  - pose proof (pick_sound kinds false true p) as [_ HL].
    pose proof (pick_none_iff kinds false true p) as Hnone.
    pose proof (existsb_usable_iff kinds false true) as Hex.
    case_bool_decide as Hk.
    + destruct (pickRunningLocation kinds false true p); [|by specialize (HL eq_refl)|done].
      assert (existsb (usable false true) kinds = true) as Hu
        by (apply Hex; left; done).
      rewrite (proj1 Hnone eq_refl) in Hu. discriminate.
    + apply Hnone. destruct (existsb _ kinds); [|done].
      destruct (proj1 Hex eq_refl) as [[_ ?]|[? _]]; done.
  - pose proof (pick_sound kinds true false p) as [HR _].
    pose proof (pick_none_iff kinds true false p) as Hnone.
    pose proof (existsb_usable_iff kinds true false) as Hex.
    case_bool_decide as Hk.
    + destruct (pickRunningLocation kinds true false p); [|done|by specialize (HR eq_refl)].
      assert (existsb (usable true false) kinds = true) as Hu
        by (apply Hex; right; done).
      rewrite (proj1 Hnone eq_refl) in Hu. discriminate.
    + apply Hnone. destruct (existsb _ kinds); [|done].
      destruct (proj1 Hex eq_refl) as [[? _]|[_ ?]]; done.
  - apply pick_none_iff. destruct (existsb _ kinds) eqn:E; [|done].
    apply existsb_usable_iff in E as [[? _]|[? _]]; done.
Qed.

(** X3. An explicit preference is honoured whenever the preferred side is
    possible, wherever the kinds stand in the list: preference [Remote]
    gives [Remote] for an extension installed remotely with a [ui] or
    [workspace] kind, preference [Local] gives [LocalWebWorker] for one
    installed locally with a [web] kind. *)
Theorem explicit_preference_honoured kinds :
  (∀ l, "ui" ∈ kinds ∨ "workspace" ∈ kinds →
        pickRunningLocation kinds l true ExtensionRunningPreference.Remote
        = ExtensionRunningLocation.Remote)
  ∧ (∀ r, "web" ∈ kinds →
          pickRunningLocation kinds true r ExtensionRunningPreference.Local
          = ExtensionRunningLocation.LocalWebWorker).
Proof.
  split.
  - intros l Hin. rewrite pickRunningLocation_spec.
    assert (∃ k, k ∈ kinds
               ∧ immediate l true ExtensionRunningPreference.Remote k = true)
      as (k & Hk & Hik).
    { destruct Hin; [exists "ui"|exists "workspace"]; by destruct l. }
    destruct (find_immediate_some _ _ _ _ _ Hk Hik) as (k' & -> & Hk').
    revert Hk'. unfold immediate, verdict, prefers.
    destruct l; by_kind; done.
  - intros r Hin. rewrite pickRunningLocation_spec.
    destruct (find_immediate_some true r ExtensionRunningPreference.Local
                kinds "web" Hin) as (k' & -> & Hk'); [by destruct r|].
    revert Hk'. unfold immediate, verdict, prefers.
    destruct r; by_kind; done.
Qed.

Lemma explicit_preference_honoured_witness :
  ("ui" ∈ ["web"; "ui"] ∨ "workspace" ∈ ["web"; "ui"])
  ∧ pickRunningLocation ["web"; "ui"] true true
      ExtensionRunningPreference.Remote
    = ExtensionRunningLocation.Remote
  ∧ ("web" ∈ ["ui"; "workspace"; "web"])
  ∧ pickRunningLocation ["ui"; "workspace"; "web"] true true
      ExtensionRunningPreference.Local
    = ExtensionRunningLocation.LocalWebWorker.
Proof.
  assert (Hui : "ui" ∈ ["web"; "ui"] ∨ "workspace" ∈ ["web"; "ui"])
    by (left; apply list_elem_of_further, list_elem_of_here).
  assert (Hweb : "web" ∈ ["ui"; "workspace"; "web"])
    by (do 2 apply list_elem_of_further; apply list_elem_of_here).
  split; [exact Hui|]. split.
  - exact (proj1 (explicit_preference_honoured ["web"; "ui"]) true Hui).
  - split; [exact Hweb|].
    exact (proj2 (explicit_preference_honoured ["ui"; "workspace"; "web"])
             true Hweb).
Defined.

(** Dropping kinds that neither decide, defer nor ask for the last resort
    changes nothing. *)
Lemma pick_filter_inert (P : ExtensionKind → Prop) `{!∀ k, Decision (P k)}
    kinds l r p :
  (∀ k, ¬ P k → usable l r k = false) →
  pickRunningLocation (filter P kinds) l r p
  = pickRunningLocation kinds l r p.
Proof.
  intros Hinert.
  assert (Hparts : ∀ k, ¬ P k →
            immediate l r p k = false ∧ deferredBy l r p k = []
            ∧ lastResortBy r p k = false).
  { intros k Hk. specialize (Hinert k Hk).
    rewrite (usable_split l r p) in Hinert.
    destruct (immediate l r p k), (deferredBy l r p k),
      (lastResortBy r p k); done. }
  rewrite !pickRunningLocation_spec. unfold firstCandidate, candidates.
  assert (List.find (immediate l r p) (filter P kinds)
          = List.find (immediate l r p) kinds) as ->.
  { induction kinds as [|k kinds IH]; [done|].
    rewrite filter_cons. case_decide as Hk; cbn; rewrite IH; [done|].
    by destruct (Hparts k Hk) as (-> & _). }
  assert (flat_map (deferredBy l r p) (filter P kinds)
          = flat_map (deferredBy l r p) kinds) as ->.
  { induction kinds as [|k kinds IH]; [done|].
    rewrite filter_cons. case_decide as Hk; cbn; rewrite IH; [done|].
    by destruct (Hparts k Hk) as (_ & -> & _). }
  assert (existsb (lastResortBy r p) (filter P kinds)
          = existsb (lastResortBy r p) kinds) as ->; [|done].
  induction kinds as [|k kinds IH]; [done|].
  rewrite filter_cons. case_decide as Hk; cbn; rewrite IH; [done|].
  by destruct (Hparts k Hk) as (_ & _ & ->).
Qed.

(** X4. Kinds other than [ui], [workspace] and [web] are ignored: the
    answer is that of the list with such kinds removed. *)
Theorem unknown_kinds_ignored kinds l r p :
  pickRunningLocation (filter (λ k, k ∈ knownKinds) kinds) l r p
  = pickRunningLocation kinds l r p.
Proof.
  apply pick_filter_inert. intros k Hk. unfold usable, knownKinds in *.
  by_kind; try reflexivity; exfalso; apply Hk; set_solver.
Qed.

(** X5. Kinds the extension cannot use on the given installation (for
    instance [web] when it is not installed locally) are ignored as well,
    so only the order among usable kinds matters. *)
Theorem unusable_kinds_ignored kinds l r p :
  pickRunningLocation (filter (λ k, usable l r k = true) kinds) l r p
  = pickRunningLocation kinds l r p.
Proof.
  apply pick_filter_inert. intros k Hk. by destruct (usable l r k).
Qed.

Lemma placed_iff_usable_kind_witness :
  (true = true ∧ "web" ∈ ["workspace"; "web"])
  ∧ pickRunningLocation ["workspace"; "web"] true false
      ExtensionRunningPreference.Remote
    ≠ ExtensionRunningLocation.None.
Proof.
  assert (H : true = true ∧ "web" ∈ ["workspace"; "web"])
    by (split; [reflexivity|apply list_elem_of_further, list_elem_of_here]).
  split; [exact H|].
  exact (proj2 (placed_iff_usable_kind ["workspace"; "web"] true false
                  ExtensionRunningPreference.Remote) (or_intror H)).
Defined.

End PolicyMore.

(* ===================================================================== *)
(** * Properties of the filtering by running location *)
(* ===================================================================== *)

Section FilteringFacts.

Import ExtensionFiltering.

Context {IExtensionDescription ExtensionIdentifier : Type}.
Context (identifier : IExtensionDescription → ExtensionIdentifier).
Context (toKey : ExtensionIdentifier → string).

Implicit Types (ext : IExtensionDescription).
Implicit Types (exts : list IExtensionDescription).
Implicit Types (m : gmap string ExtensionRunningLocation.t).
Implicit Types (d : ExtensionRunningLocation.t).

Local Abbreviation key := (λ ext, toKey (identifier ext)).

(** Filtering keeps the order and drops extensions only. *)
Lemma filterBy_sublist exts m d :
  filterByRunningLocation identifier toKey exts m d `sublist_of` exts.
Proof. apply sublist_filter. Qed.

Lemma filterBy_keys_NoDup exts m d :
  NoDup (key <$> exts) →
  NoDup (key <$> filterByRunningLocation identifier toKey exts m d).
Proof.
  intros Hkeys. eapply sublist_NoDup; [exact Hkeys|].
  apply fmap_sublist, filterBy_sublist.
Qed.

(** X6. Filtering twice: for the same location the second filter changes
    nothing, for another location it leaves nothing, since an extension
    has at most one running location. *)
Theorem filterByRunningLocation_twice exts m d d' :
  filterByRunningLocation identifier toKey
    (filterByRunningLocation identifier toKey exts m d) m d'
  = if decide (d = d')
    then filterByRunningLocation identifier toKey exts m d
    else [].
Proof.
  unfold filterByRunningLocation.
  induction exts as [|ext exts IH]; [by case_decide|].
  rewrite !filter_cons.
  destruct (decide (m !! key ext = Some d)) as [Hd|Hd].
  - rewrite filter_cons, IH.
    destruct (decide (d = d')) as [->|Hdd'].
    + by rewrite decide_True.
    + rewrite decide_False; [done|]. rewrite Hd. congruence.
  - rewrite IH. by destruct (decide (d = d')).
Qed.

(** X7. What goes to the registry: an extension of the remote list
    classified [Remote] or an extension of the local list classified
    [LocalWebWorker].  An extension the classification leaves out, or
    classifies as [None], is never registered. *)
Theorem registered_only_when_classified m
    (localExts remoteExts : list IExtensionDescription) ext :
  (ext ∈ extensionsToRegister identifier toKey m localExts remoteExts
   ↔ (ext ∈ remoteExts
      ∧ m !! key ext = Some ExtensionRunningLocation.Remote)
     ∨ (ext ∈ localExts
        ∧ m !! key ext = Some ExtensionRunningLocation.LocalWebWorker))
  ∧ (m !! key ext = None
     ∨ m !! key ext = Some ExtensionRunningLocation.None
     → ext ∉ extensionsToRegister identifier toKey m localExts remoteExts).
Proof.
  assert (Hiff :
    ext ∈ extensionsToRegister identifier toKey m localExts remoteExts
   ↔ (ext ∈ remoteExts
      ∧ m !! key ext = Some ExtensionRunningLocation.Remote)
     ∨ (ext ∈ localExts
        ∧ m !! key ext = Some ExtensionRunningLocation.LocalWebWorker)).
  { unfold extensionsToRegister, filterByRunningLocation.
    rewrite elem_of_app, !list_elem_of_filter. tauto. }
  split; [exact Hiff|].
  intros Hm Hin. apply Hiff in Hin.
  destruct Hm as [Hm|Hm], Hin as [[_ Hin]|[_ Hin]]; congruence.
Qed.

(** X8. If no two extensions of the local scan share a key, and no two of
    the remote scan do, then no two registered extensions share a key: an
    extension present on both sides is registered from one side only. *)
Theorem registered_keys_unique m
    (localExts remoteExts : list IExtensionDescription) :
  NoDup (key <$> localExts) →
  NoDup (key <$> remoteExts) →
  NoDup (key <$> extensionsToRegister identifier toKey m localExts remoteExts).
Proof.
  intros Hlocal Hremote. unfold extensionsToRegister.
  rewrite fmap_app. apply NoDup_app. split; [|split].
  - by apply filterBy_keys_NoDup.
  - intros k (e1 & -> & H1)%list_elem_of_fmap (e2 & Hk & H2)%list_elem_of_fmap.
    unfold filterByRunningLocation in *.
    apply list_elem_of_filter in H1 as [H1 _].
    apply list_elem_of_filter in H2 as [H2 _].
    rewrite Hk in H1. congruence.
  - by apply filterBy_keys_NoDup.
Qed.

End FilteringFacts.

Lemma registered_only_when_classified_witness :
  (({["b" := ExtensionRunningLocation.Remote]}
      : gmap string ExtensionRunningLocation.t) !! "a" = None
   ∨ ({["b" := ExtensionRunningLocation.Remote]}
        : gmap string ExtensionRunningLocation.t) !! "a"
     = Some ExtensionRunningLocation.None)
  ∧ "a" ∉ ExtensionFiltering.extensionsToRegister
            (λ ext : string, ext) (λ i : string, i)
            {["b" := ExtensionRunningLocation.Remote]} ["a"] ["a"; "b"].
Proof.
  assert (H : ({["b" := ExtensionRunningLocation.Remote]}
                 : gmap string ExtensionRunningLocation.t) !! "a" = None
              ∨ ({["b" := ExtensionRunningLocation.Remote]}
                   : gmap string ExtensionRunningLocation.t) !! "a"
                = Some ExtensionRunningLocation.None)
    by (left; reflexivity).
  split; [exact H|].
  exact (proj2 (registered_only_when_classified (λ ext : string, ext)
                  (λ i : string, i)
                  {["b" := ExtensionRunningLocation.Remote]}
                  ["a"] ["a"; "b"] "a") H).
Defined.

Lemma registered_keys_unique_witness :
  NoDup ((λ ext : string, ext) <$> ["a"; "b"])
  ∧ NoDup ((λ ext : string, ext) <$> ["b"; "c"])
  ∧ NoDup ((λ ext : string, ext)
           <$> ExtensionFiltering.extensionsToRegister
                 (λ ext : string, ext) (λ i : string, i)
                 {["a" := ExtensionRunningLocation.LocalWebWorker;
                   "b" := ExtensionRunningLocation.Remote;
                   "c" := ExtensionRunningLocation.Remote]}
                 ["a"; "b"] ["b"; "c"]).
Proof.
  assert (H1 : NoDup ((λ ext : string, ext) <$> ["a"; "b"]))
    by (apply NoDup_ListNoDup; repeat constructor; cbn; intuition discriminate).
  assert (H2 : NoDup ((λ ext : string, ext) <$> ["b"; "c"]))
    by (apply NoDup_ListNoDup; repeat constructor; cbn; intuition discriminate).
  split; [exact H1|]. split; [exact H2|].
  exact (registered_keys_unique (λ ext : string, ext) (λ i : string, i)
           _ ["a"; "b"] ["b"; "c"] H1 H2).
Defined.

(* ===================================================================== *)
(** * Properties of the argument parsing *)
(* ===================================================================== *)

Section ArgvFacts.

Import Stdlib.Strings.Ascii.
Import Preload PreloadStartup.

Implicit Types (s t key arg : string) (c sep : Ascii.ascii).
Implicit Types (argv : list string).

Local Arguments String.append !_ _ : simpl nomatch.

Lemma append_assoc_string s t u : (s +:+ t) +:+ u = s +:+ (t +:+ u).
Proof. induction s as [|c s IH]; cbn; [done|]. by f_equal. Qed.

Lemma append_empty_r s : s +:+ "" = s.
Proof. induction s as [|c s IH]; cbn; [done|]. by f_equal. Qed.

Lemma prefix_cons c c' s t :
  String.prefix (String c s) (String c' t)
  = if ascii_dec c c' then String.prefix s t else false.
Proof. reflexivity. Qed.

Lemma prefix_append s t : String.prefix s (s +:+ t) = true.
Proof.
  induction s as [|c s IH]; cbn; [by destruct t|].
  by destruct (ascii_dec c c).
Qed.

Lemma occurs_append c s t : occurs c (s +:+ t) = occurs c s || occurs c t.
Proof.
  induction s as [|c' s IH]; cbn; [done|]. by rewrite IH, orb_assoc.
Qed.

(** A string that starts with [s] has every character of [s]. *)
Lemma occurs_prefix c s t :
  String.prefix s t = true → occurs c s = true → occurs c t = true.
Proof.
  revert t. induction s as [|c' s IH]; intros t; cbn; [done|].
  destruct t as [|c'' t]; [done|]. cbn.
  destruct (ascii_dec c' c'') as [<-|]; [|done].
  intros Hp [Hc|Hs]%orb_true_iff; apply orb_true_iff; eauto.
Qed.

(** [indexOf(needle) === 0] is [startsWith(needle)]. *)
Lemma indexOf_zero s needle :
  (indexOf s needle =? 0)%Z = String.prefix needle s.
Proof.
  unfold indexOf. destruct s as [|c s].
  - by destruct needle.
  - cbn [String.index]. destruct (String.prefix needle (String c s)); [done|].
    by destruct (String.index 0 needle s).
Qed.

Lemma split_not_nil sep s : split sep s ≠ [].
Proof.
  destruct s as [|c s]; cbn; [done|].
  destruct (Ascii.eqb c sep); [done|]. by destruct (split sep s).
Qed.

(** No piece of a split holds the separator. *)
Lemma split_pieces sep s :
  Forall (λ piece, occurs sep piece = false) (split sep s).
Proof.
  induction s as [|c s IH]; cbn; [by repeat constructor|].
  destruct (Ascii.eqb c sep) eqn:Ec; [by constructor|].
  destruct (split sep s) as [|piece pieces]; cbn.
  - by repeat constructor; cbn; rewrite Ec.
  - inversion IH; subst. constructor; [|done]. cbn. by rewrite Ec.
Qed.

(** A string with the separator splits into two pieces at least. *)
Lemma split_two sep s :
  occurs sep s = true → ∃ a b rest, split sep s = a :: b :: rest.
Proof.
  induction s as [|c s IH]; cbn; [done|].
  destruct (Ascii.eqb c sep) eqn:Ec; cbn.
  - intros _. pose proof (split_not_nil sep s).
    destruct (split sep s) as [|b rest]; [done|]. eauto.
  - intros (a & b & rest & ->)%IH. eauto.
Qed.

Lemma split_no_sep sep s : occurs sep s = false → split sep s = [s].
Proof.
  induction s as [|c s IH]; cbn; [done|].
  destruct (Ascii.eqb c sep); cbn; [done|]. by intros ->%IH.
Qed.

Lemma split_append sep s t :
  occurs sep s = false →
  split sep (s +:+ String sep t) = s :: split sep t.
Proof.
  induction s as [|c s IH]; cbn.
  - by rewrite Ascii.eqb_refl.
  - destruct (Ascii.eqb c sep); cbn; [done|]. by intros ->%IH.
Qed.

Lemma flag_has_equals key : occurs "=" ("--" +:+ key +:+ "=") = true.
Proof. rewrite !occurs_append. cbn. by rewrite orb_true_r. Qed.

(** An argument that starts with the flag always yields a value. *)
Lemma matching_arg_value key arg :
  String.prefix ("--" +:+ key +:+ "=") arg = true →
  ∃ v, split "=" arg !! 1%nat = Some v.
Proof.
  intros Hp.
  destruct (split_two "=" arg) as (a & b & rest & ->); [|by eexists].
  eapply occurs_prefix; [exact Hp|]. apply flag_has_equals.
Qed.

(** X9. [parseArgv] answers [undefined] exactly when no argument starts
    with [--key=]; an argument that merely contains the flag, or names it
    without [=], does not count. *)
Theorem parseArgv_undefined_iff argv key :
  parseArgv argv key = None
  ↔ ∀ arg, arg ∈ argv → String.prefix ("--" +:+ key +:+ "=") arg = false.
Proof.
  induction argv as [|arg argv IH]; cbn [parseArgv].
  - split; [|done]. intros _ arg Hin. by apply elem_of_nil in Hin.
  - rewrite indexOf_zero.
    destruct (String.prefix _ arg) eqn:Hp.
    + destruct (matching_arg_value key arg Hp) as (v & ->).
      split; [done|]. intros Hall.
      specialize (Hall arg (list_elem_of_here _ _)). congruence.
    + rewrite IH. split.
      * intros Hall arg' [->|Hin]%elem_of_cons; [done|by apply Hall].
      * intros Hall arg' Hin. apply Hall. by apply list_elem_of_further.
Qed.

(** X10. The value of the first argument that starts with [--key=] is
    returned, cut at its first [=]: for a key without [=], the argument
    [--key=v] gives [v], and so does [--key=v=...]. *)
Theorem parseArgv_first_match pre post key v tail :
  occurs "=" key = false →
  occurs "=" v = false →
  tail = "" ∨ String.prefix "=" tail = true →
  (∀ arg, arg ∈ pre → String.prefix ("--" +:+ key +:+ "=") arg = false) →
  parseArgv (pre ++ ("--" +:+ key +:+ "=" +:+ v +:+ tail) :: post) key
  = Some v.
Proof.
  intros Hkey Hv Htail Hpre.
  induction pre as [|arg pre IH]; cbn [parseArgv app].
  - rewrite indexOf_zero.
    replace ("--" +:+ key +:+ "=" +:+ v +:+ tail)
      with (("--" +:+ key +:+ "=") +:+ (v +:+ tail))
      by (by rewrite !append_assoc_string).
    rewrite prefix_append.
    replace (("--" +:+ key +:+ "=") +:+ (v +:+ tail))
      with (("--" +:+ key) +:+ String "=" (v +:+ tail))
      by (by rewrite !append_assoc_string).
    rewrite split_append by (by rewrite occurs_append, Hkey).
    destruct Htail as [->|Hp].
    + by rewrite append_empty_r, split_no_sep.
    + destruct tail as [|c tail]; [by vm_compute in Hp|].
      rewrite prefix_cons in Hp.
      destruct (ascii_dec "=" c) as [<-|]; [|done].
      by rewrite split_append.
  - rewrite indexOf_zero, (Hpre arg) by apply list_elem_of_here.
    apply IH. intros arg' Hin. apply Hpre. by apply list_elem_of_further.
Qed.

Lemma parseArgv_first_match_witness :
  occurs "=" "vscode-window-config" = false
  ∧ occurs "=" "vscode:1" = false
  ∧ ("=x" = "" ∨ String.prefix "=" "=x" = true)
  ∧ (∀ arg, arg ∈ ["code"; "--type=renderer"] →
       String.prefix ("--" +:+ "vscode-window-config" +:+ "=") arg = false)
  ∧ parseArgv
      (["code"; "--type=renderer"]
       ++ ("--" +:+ "vscode-window-config" +:+ "=" +:+ "vscode:1" +:+ "=x")
          :: ["--vscode-window-config=vscode:2"])
      "vscode-window-config"
    = Some "vscode:1".
Proof.
  assert (H1 : occurs "=" "vscode-window-config" = false) by reflexivity.
  assert (H2 : occurs "=" "vscode:1" = false) by reflexivity.
  assert (H3 : "=x" = "" ∨ String.prefix "=" "=x" = true)
    by (right; reflexivity).
  assert (H4 : ∀ arg, arg ∈ ["code"; "--type=renderer"] →
            String.prefix ("--" +:+ "vscode-window-config" +:+ "=") arg
            = false).
  { intros arg Hin. repeat (apply elem_of_cons in Hin as [->|Hin]);
      [reflexivity..|by apply elem_of_nil in Hin]. }
  split; [exact H1|]. split; [exact H2|]. split; [exact H3|].
  split; [exact H4|].
  exact (parseArgv_first_match ["code"; "--type=renderer"]
           ["--vscode-window-config=vscode:2"] "vscode-window-config"
           "vscode:1" "=x" H1 H2 H3 H4).
Defined.

(** X11. Whatever the key and the arguments, a value that [parseArgv]
    returns holds no [=]. *)
Theorem parseArgv_value_has_no_equals argv key v :
  parseArgv argv key = Some v → occurs "=" v = false.
Proof.
  induction argv as [|arg argv IH]; cbn [parseArgv]; [done|].
  destruct (indexOf arg _ =? 0)%Z; [|exact IH].
  intros Hv. pose proof (split_pieces "=" arg) as Hall.
  rewrite Forall_lookup in Hall. exact (Hall 1%nat v Hv).
Qed.

Lemma parseArgv_value_has_no_equals_witness :
  parseArgv ["--a=b=c"] "a" = Some "b" ∧ occurs "=" "b" = false.
Proof.
  assert (H : parseArgv ["--a=b=c"] "a" = Some "b") by reflexivity.
  split; [exact H|].
  exact (parseArgv_value_has_no_equals ["--a=b=c"] "a" "b" H).
Defined.

Lemma parseArgv_undefined_iff_witness :
  (∀ arg, arg ∈ ["code"; "x--key=1"; "--key"] →
     String.prefix ("--" +:+ "key" +:+ "=") arg = false)
  ∧ parseArgv ["code"; "x--key=1"; "--key"] "key" = None.
Proof.
  assert (H : ∀ arg, arg ∈ ["code"; "x--key=1"; "--key"] →
            String.prefix ("--" +:+ "key" +:+ "=") arg = false).
  { intros arg Hin. repeat (apply elem_of_cons in Hin as [->|Hin]);
      [reflexivity..|by apply elem_of_nil in Hin]. }
  split; [exact H|].
  exact (proj2 (parseArgv_undefined_iff ["code"; "x--key=1"; "--key"] "key")
           H).
Defined.

End ArgvFacts.

(* ===================================================================== *)
(** * Further properties of the preload bridge *)
(* ===================================================================== *)

Section BridgeFacts.

Import Preload PreloadStartup.

Implicit Types (w : World) (channel type : string) (userEnv : Env).

Lemma validateIPC_valid channel w :
  String.prefix "vscode:" channel = true →
  validateIPC channel w = (Ok true, w).
Proof.
  intros H. unfold validateIPC, falsy. rewrite H.
  rewrite bool_decide_eq_false_2; [done|]. by intros ->.
Qed.

(** X12. On a channel that starts with ['vscode:'] each of the six exposed
    [ipcRenderer] methods returns normally and hands exactly its own
    arguments to the transport, once. *)
Theorem valid_channel_forwarded channel w :
  String.prefix "vscode:" channel = true →
  (∀ args, globals.ipcRenderer.send channel args w
           = (Ok tt, set_ipcCalls (ipcCalls w ++ [Send channel args]) w))
  ∧ (∀ msg transfer,
       globals.ipcRenderer.postMessage channel msg transfer w
       = (Ok tt,
          set_ipcCalls (ipcCalls w ++ [PostMessage channel msg transfer]) w))
  ∧ (∀ args,
       globals.ipcRenderer.invoke channel args w
       = (Ok (Some (length (promises w))),
          set_promises (promises w ++ [Pending])
            (set_ipcCalls (ipcCalls w ++ [Invoke channel args]) w)))
  ∧ (∀ listener,
       globals.ipcRenderer.on channel listener w
       = (Ok tt, set_ipcCalls (ipcCalls w ++ [On channel listener]) w))
  ∧ (∀ listener,
       globals.ipcRenderer.once channel listener w
       = (Ok tt, set_ipcCalls (ipcCalls w ++ [Once channel listener]) w))
  ∧ (∀ listener,
       globals.ipcRenderer.removeListener channel listener w
       = (Ok tt,
          set_ipcCalls (ipcCalls w ++ [RemoveListener channel listener]) w)).
Proof.
  intros H. pose proof (validateIPC_valid channel w H) as Hv.
  repeat split; intros;
    match goal with
    | |- ?m _ = _ => unfold m
    | |- ?m _ _ = _ => unfold m
    | |- ?m _ _ _ = _ => unfold m
    | |- ?m _ _ _ _ = _ => unfold m
    end;
    erewrite bind_ok by exact Hv; reflexivity.
Qed.

Lemma valid_channel_forwarded_witness :
  String.prefix "vscode:" "vscode:toggleDevTools" = true
  ∧ globals.ipcRenderer.send "vscode:toggleDevTools" [Num 1]
      (startWorld ∅)
    = (Ok tt,
       set_ipcCalls (ipcCalls (startWorld ∅)
                     ++ [Send "vscode:toggleDevTools" [Num 1]])
         (startWorld ∅)).
Proof.
  assert (H : String.prefix "vscode:" "vscode:toggleDevTools" = true)
    by reflexivity.
  split; [exact H|].
  exact (proj1 (valid_channel_forwarded "vscode:toggleDevTools"
                  (startWorld ∅) H) [Num 1]).
Defined.

(** Settling the promise made last. *)
Lemma settle_fresh w (ps : list PromiseState) (st : PromiseState) :
  promises w = (ps ++ [Pending])%list →
  settle (length ps) st w = set_promises (ps ++ [st]) w.
Proof.
  intros Hps. unfold settle. rewrite Hps.
  rewrite list_lookup_middle by done. f_equal.
  rewrite insert_app_r_alt by done. by rewrite Nat.sub_diag.
Qed.

(** [resolveConfiguration] in all its cases. *)
Lemma resolveConfiguration_cases argv w :
  resolveConfiguration argv w
  = (Ok (length (promises w)),
     let rejected reason :=
       set_promises (promises w ++ [Rejected reason]) w in
     match parseArgv argv "vscode-window-config" with
     | Some channel =>
         if falsy channel then rejected noWindowConfig
         else if String.prefix "vscode:" channel then
           set_promises (promises w ++ [Pending; Pending])
             (set_ipcCalls (ipcCalls w ++ [Invoke channel []]) w)
         else
           rejected ("Preload: unable to fetch vscode-window-config: "
                     +:+ "Error: Unsupported event IPC channel '"
                     +:+ channel +:+ "'")
     | None => rejected noWindowConfig
     end).
Proof.
  unfold resolveConfiguration, async, newPromise.
  destruct (parseArgv argv "vscode-window-config") as [channel|];
    [|cbn; by rewrite (settle_fresh _ (promises w))].
  destruct (falsy channel) eqn:Hfalsy;
    [cbn; by rewrite (settle_fresh _ (promises w))|].
  unfold tryCatch. destruct (String.prefix "vscode:" channel) eqn:Hp.
  - erewrite bind_ok by (by apply validateIPC_valid).
    unfold electron.ipcRenderer.invoke, electron.ipcRenderer.record,
      newPromise, modify, mbind, M_bind, mret, M_ret,
      set_promises, set_ipcCalls.
    cbn. by rewrite <- app_assoc.
  - erewrite bind_throw by (by apply validateIPC_invalid).
    cbn. by rewrite (settle_fresh _ (promises w)).
Qed.

(** X13. [resolveConfiguration] without a usable channel: when no argument
    gives [--vscode-window-config=], or gives it an empty value, or gives a
    channel that does not start with ['vscode:'], the promise it answers
    with is rejected (the window configuration is never asked for, nothing
    reaches the transport) and the call itself does not throw. *)
Theorem resolveConfiguration_rejects argv w :
  let p := length (promises w) in
  let rejected reason :=
    (Ok p, set_promises (promises w ++ [Rejected reason]) w) in
  (parseArgv argv "vscode-window-config" = None
   ∨ parseArgv argv "vscode-window-config" = Some "" →
   resolveConfiguration argv w = rejected noWindowConfig)
  ∧ (∀ channel,
       parseArgv argv "vscode-window-config" = Some channel →
       channel ≠ "" →
       String.prefix "vscode:" channel = false →
       resolveConfiguration argv w
       = rejected
           ("Preload: unable to fetch vscode-window-config: "
            +:+ "Error: Unsupported event IPC channel '" +:+ channel
            +:+ "'")).
Proof.
  intros p rejected. subst p rejected. cbv beta.
  rewrite resolveConfiguration_cases. split.
  - by intros [->| ->].
  - intros channel -> Hne ->. unfold falsy.
    by rewrite bool_decide_eq_false_2.
Qed.

Lemma resolveConfiguration_rejects_witness :
  (parseArgv ["code"; "--vscode-window-config="] "vscode-window-config"
   = None
   ∨ parseArgv ["code"; "--vscode-window-config="] "vscode-window-config"
     = Some "")
  ∧ resolveConfiguration ["code"; "--vscode-window-config="] (startWorld ∅)
    = (Ok 0%nat,
       set_promises (promises (startWorld ∅) ++ [Rejected noWindowConfig])
         (startWorld ∅))
  ∧ parseArgv ["--vscode-window-config=file:1"] "vscode-window-config"
    = Some "file:1"
  ∧ "file:1" ≠ ""
  ∧ String.prefix "vscode:" "file:1" = false
  ∧ resolveConfiguration ["--vscode-window-config=file:1"] (startWorld ∅)
    = (Ok 0%nat,
       set_promises
         (promises (startWorld ∅)
          ++ [Rejected
                ("Preload: unable to fetch vscode-window-config: "
                 +:+ "Error: Unsupported event IPC channel '" +:+ "file:1"
                 +:+ "'")])
         (startWorld ∅)).
Proof.
  assert (H : parseArgv ["code"; "--vscode-window-config="]
                "vscode-window-config" = None
              ∨ parseArgv ["code"; "--vscode-window-config="]
                  "vscode-window-config" = Some "")
    by (right; reflexivity).
  assert (H1 : parseArgv ["--vscode-window-config=file:1"]
                 "vscode-window-config" = Some "file:1") by reflexivity.
  assert (H2 : "file:1" ≠ "") by discriminate.
  assert (H3 : String.prefix "vscode:" "file:1" = false) by reflexivity.
  split; [exact H|]. split.
  - exact (proj1 (resolveConfiguration_rejects
                    ["code"; "--vscode-window-config="] (startWorld ∅)) H).
  - split; [exact H1|]. split; [exact H2|]. split; [exact H3|].
    exact (proj2 (resolveConfiguration_rejects
                    ["--vscode-window-config=file:1"] (startWorld ∅))
             "file:1" H1 H2 H3).
Defined.

(** X14. [resolveConfiguration] with a channel that starts with
    ['vscode:']: the configuration is asked for by one [invoke] on that
    channel, without arguments, and the promise stays pending until the
    main side answers. *)
Theorem resolveConfiguration_invokes argv w channel :
  parseArgv argv "vscode-window-config" = Some channel →
  String.prefix "vscode:" channel = true →
  resolveConfiguration argv w
  = (Ok (length (promises w)),
     set_promises (promises w ++ [Pending; Pending])
       (set_ipcCalls (ipcCalls w ++ [Invoke channel []]) w)).
Proof.
  intros Harg Hp. rewrite resolveConfiguration_cases, Harg, Hp.
  unfold falsy. rewrite bool_decide_eq_false_2; [done|]. by intros ->.
Qed.

Lemma resolveConfiguration_invokes_witness :
  parseArgv ["code"; "--vscode-window-config=vscode:7"]
    "vscode-window-config" = Some "vscode:7"
  ∧ String.prefix "vscode:" "vscode:7" = true
  ∧ resolveConfiguration ["code"; "--vscode-window-config=vscode:7"]
      (startWorld ∅)
    = (Ok (length (promises (startWorld ∅))),
       set_promises (promises (startWorld ∅) ++ [Pending; Pending])
         (set_ipcCalls (ipcCalls (startWorld ∅) ++ [Invoke "vscode:7" []])
            (startWorld ∅))).
Proof.
  assert (H1 : parseArgv ["code"; "--vscode-window-config=vscode:7"]
                 "vscode-window-config" = Some "vscode:7") by reflexivity.
  assert (H2 : String.prefix "vscode:" "vscode:7" = true) by reflexivity.
  split; [exact H1|]. split; [exact H2|].
  exact (resolveConfiguration_invokes
           ["code"; "--vscode-window-config=vscode:7"] (startWorld ∅)
           "vscode:7" H1 H2).
Defined.

(** The first call of [resolveEnv], as a state change. *)
Lemma resolveEnv_first w userEnv :
  resolvedEnv w = None →
  resolveEnv userEnv w
  = (Ok (Some (length (promises w))),
     mkWorld (userEnv ∪ process_env w) (Some (length (promises w)))
       (promises w ++ [Pending])
       (ipcCalls w
        ++ [Once "vscode:acceptShellEnv"
              (AcceptShellEnv userEnv (length (promises w)));
            Send "vscode:fetchShellEnv" []])
       (processListeners w)).
Proof.
  intros Hnone. unfold resolveEnv, mbind, M_bind, gets. cbn.
  rewrite Hnone. cbn.
  unfold set_resolvedEnv, set_ipcCalls, set_promises, set_process_env.
  cbn. by rewrite <- app_assoc.
Qed.

(** X15. [resolveEnv] never throws and never answers [undefined]: in every
    state it returns a promise, which is the one the module variable holds
    afterwards; it keeps every earlier transport call and promise and
    leaves the listeners of the node process alone. *)
Theorem resolveEnv_always_promise w userEnv :
  ∃ p w',
    resolveEnv userEnv w = (Ok (Some p), w')
    ∧ resolvedEnv w' = Some p
    ∧ ipcCalls w `prefix_of` ipcCalls w'
    ∧ promises w `prefix_of` promises w'
    ∧ processListeners w' = processListeners w.
Proof.
  destruct (resolvedEnv w) as [p|] eqn:Hres.
  - exists p, w. by rewrite (resolveEnv_cached _ _ _ Hres).
  - eexists _, _. rewrite (resolveEnv_first _ _ Hres). cbn.
    split; [done|]. split; [done|].
    split; [|split; [|done]]; by apply prefix_app_r.
Qed.

(** X16. The whole exchange: after a first [resolveEnv userEnv], any
    second call with another argument, and the main side's answer
    [shellEnv] handed to the listener that the first call registered (the
    closure over [userEnv] and the promise's [resolve]), the promise is
    fulfilled and [process.env] is the old environment overlaid
    with [shellEnv] and then with the first caller's [userEnv].  The
    argument of the second call leaves no trace. *)
Theorem resolveEnv_then_answer w userEnv userEnv' (shellEnv : Env) :
  resolvedEnv w = None →
  let p := length (promises w) in
  let listener := AcceptShellEnv userEnv p in
  let w2 := ((resolveEnv userEnv;; resolveEnv userEnv') w).2 in
  let w3 := (acceptShellEnv userEnv p shellEnv w2).2 in
  ipcCalls w2
  = (ipcCalls w ++ [Once "vscode:acceptShellEnv" listener;
                    Send "vscode:fetchShellEnv" []])%list
  ∧ process_env w3 = shellEnvResult (process_env w) shellEnv userEnv
  ∧ promises w3 !! p = Some Fulfilled
  ∧ (∀ k v, userEnv !! k = Some v → process_env w3 !! k = Some v)
  ∧ (∀ k, userEnv !! k = None → shellEnv !! k = None →
          process_env w3 !! k = process_env w !! k).
Proof.
  intros Hnone p listener w2 w3.
  assert (Hw2 : w2 = (resolveEnv userEnv w).2).
  { subst w2. unfold mbind, M_bind. rewrite (resolveEnv_first _ _ Hnone).
    by erewrite resolveEnv_cached. }
  rewrite (resolveEnv_first _ _ Hnone) in Hw2. cbn in Hw2.
  assert (Henv : process_env w3
                 = shellEnvResult (process_env w) shellEnv userEnv).
  { subst w3.
    rewrite acceptShellEnv_user_wins, Hw2. cbn. unfold shellEnvResult.
    apply map_eq. intros k. rewrite !lookup_union.
    by destruct (userEnv !! k), (shellEnv !! k), (process_env w !! k). }
  split; [by rewrite Hw2|]. split; [exact Henv|]. split; [|split].
  - subst w3.
    unfold acceptShellEnv, mbind, M_bind, Object_assign_process_env, modify.
    cbn. rewrite Hw2. unfold settle. cbn.
    rewrite list_lookup_middle by done. cbn.
    by rewrite list_lookup_insert_eq
      by (rewrite length_app; cbn; lia).
  - intros k v Hk. rewrite Henv. unfold shellEnvResult.
    by apply lookup_union_Some_l.
  - intros k Hu Hs. rewrite Henv. unfold shellEnvResult.
    rewrite !lookup_union, Hu, Hs. by destruct (process_env w !! k).
Qed.

Lemma resolveEnv_then_answer_witness :
  resolvedEnv (startWorld {["PATH" := "/bin"]}) = None
  ∧ process_env
      (acceptShellEnv {["LANG" := "C"]} 0
         {["PATH" := "/usr/bin"; "LANG" := "en"]}
         ((resolveEnv {["LANG" := "C"]};; resolveEnv {["EDITOR" := "vi"]})
            (startWorld {["PATH" := "/bin"]})).2).2
    = shellEnvResult {["PATH" := "/bin"]}
        {["PATH" := "/usr/bin"; "LANG" := "en"]} {["LANG" := "C"]}.
Proof.
  assert (H : resolvedEnv (startWorld {["PATH" := "/bin"]}) = None)
    by reflexivity.
  split; [exact H|].
  exact (proj1 (proj2 (resolveEnv_then_answer
                         (startWorld {["PATH" := "/bin"]})
                         {["LANG" := "C"]} {["EDITOR" := "vi"]}
                         {["PATH" := "/usr/bin"; "LANG" := "en"]} H))).
Defined.



(** ** The allow-list as an invariant *)

Lemma allowListed_unchanged w w' :
  ipcCalls w' = ipcCalls w → processListeners w' = processListeners w →
  allowListed w → allowListed w'.
Proof. unfold allowListed. by intros -> ->. Qed.









End BridgeFacts.
